(** * The [Function] construct of packages/resources/src/Function.ts

    A shallow embedding of the property merger, the property normalizers,
    the constructor (validation and the three deployment modes), the
    auxiliary-file copier and the cross-stack layer resolver, followed by
    the properties established about them.

    Conventions.
    - A JavaScript object property is an [own A]: the key is missing
      ([NoKey]), or it is there and holds [undefined] ([Key None]) or a
      value ([Key (Some v)]).  Object spread copies every own key, also one
      that holds [undefined].
    - [number] is modelled by [Z]; the only falsy number is then [0]
      ([NaN] is outside the model).
    - A thrown [Error] is the [Err] case of [result]; the error kinds are
      named after the taxonomy of the specification.
    - Values built by collaborators outside this file (cdk.Duration,
      cdk.Size, ssm, bindings) are kept symbolic.  Where the constructor
      or the layer resolver calls into them and the call can throw, the
      throw is in the model: a refused amount, an id that a scope already
      has, a dependency between stacks that would be cyclic, props that
      [lambda.Function] rejects.  The methods that run after [super]
      ([attachPermissions], [bind], [createUrl]) and [fs.copySync] are
      modelled where they return. *)

From stdpp Require Import gmap strings list fin_maps.
From Stdlib Require Import ZArith Ascii.

Local Open Scope string_scope.
Local Open Scope list_scope.

(** ** JavaScript values *)

Inductive own (A : Type) : Type :=
| NoKey
| Key (v : option A).
Arguments NoKey {A}.
Arguments Key {A} v.

(** [o.k]: a missing key reads as [undefined]. *)
Definition read {A} (f : own A) : option A :=
  match f with
  | NoKey => None
  | Key v => v
  end.

(** The key [k] of [{...b, ...o}]. *)
Definition spread {A} (b o : own A) : own A :=
  match o with
  | NoKey => b
  | Key _ => o
  end.

(** A present value, as an object literal writes it. *)
Notation "'#' v" := (Key (Some v)) (at level 9, v at level 9, format "# v").

(** ** Errors *)

Inductive error : Type :=
| MissingHandler
| UnsupportedRuntime
| InvalidBundleConfig
| MissingCopySource
| InvalidCopyDestination
| CdkError.  (* thrown inside aws-cdk-lib *)

Inductive result (A : Type) : Type :=
| Ok (a : A)
| Err (e : error).
Arguments Ok {A} a.
Arguments Err {A} e.

(** Statements run in sequence; a throw ends the sequence. *)
#[global] Instance result_bind : MBind result := λ A B k r,
  match r with
  | Ok a => k a
  | Err e => Err e
  end.

(** ** The data model of [FunctionProps] *)

(** [number | Size] and [number | Duration]: a plain number or an
    expression such as ["512 MB"] or ["20 seconds"]. *)
Inductive NumberOr : Type :=
| Num (n : Z)
| Expr (e : string).

Inductive FunctionNameProp : Type :=
| NameString (s : string)
| NameCallback (cb : nat).

Record FunctionBundleCopyFilesProps : Type := {
  from : string;
  to : option string
}.

(** The object forms of [FunctionBundleProp] are structural; the two
    members this file reads are kept, the others go to the bundler. *)
Record FunctionBundleObject : Type := {
  bundle_copyFiles : option (list FunctionBundleCopyFilesProps);
  experimentalUseProvidedRuntime : option string
}.

Inductive FunctionBundleProp : Type :=
| BundleBool (b : bool)
| BundleObject (o : FunctionBundleObject).

Inductive ConstructKind : Type :=
| KindJob
| KindSecret
| KindParameter
| KindOther.

Record SSTConstruct : Type := {
  construct_id : string;
  construct_kind : ConstructKind
}.

Inductive Permission : Type :=
| PermString (s : string)
| PermConstruct (c : SSTConstruct)
| PermGrant (c : SSTConstruct) (method : string)
| PermStatement (actions resources : list string).

(** [Permissions = "*" | Permission[]]. *)
Inductive Permissions : Type :=
| PermAll
| PermList (l : list Permission).

(** A construct is known by its place in the construct tree: its own id
    followed by the ids of its ancestors; the root is [[]].  A tree holds
    at most one construct at a place, so two constructs of one tree are
    the same object exactly when they are equal. *)
Definition path : Type := list string.

(** The value of [layerVersionArn]: a plain string, or a token that is
    resolved at deploy time only. *)
Inductive Arn : Type :=
| ArnLiteral (s : string)
| ArnRef (resource : path)
| ArnSsmValue (parameterName : string).

Inductive Payload : Type :=
| IsStack
| IsLayer (arn : Arn)
| IsStringParameter (parameterName : string) (stringValue : option Arn)
| IsOther.

Record Construct : Type := {
  node_path : path;
  payload : Payload
}.

Inductive LayerProp : Type :=
| LayerArn (arn : string)
| LayerVersion (layer : Construct).

(** [boolean | FunctionUrlCorsProps]; the members of the object form are
    read by util/functionUrlCors.js only. *)
Inductive CorsProp : Type :=
| CorsBool (b : bool)
| CorsProps (members : list (string * list string)).

Inductive FunctionUrlProp : Type :=
| UrlBool (b : bool)
| UrlProps (authorizer : option string) (cors : option CorsProp).

Record FunctionProps : Type := {
  architecture : own string;
  functionName : own FunctionNameProp;
  handler : own string;
  srcPath : own string;
  runtime : own string;
  diskSize : own NumberOr;
  memorySize : own NumberOr;
  timeout : own NumberOr;
  tracing : own string;
  enableLiveDev : own bool;
  environment : own (gmap string string);
  bundle : own FunctionBundleProp;
  bind : own (list SSTConstruct);
  config : own (list SSTConstruct);
  permissions : own Permissions;
  url : own FunctionUrlProp;
  layers : own (list LayerProp);
  logRetention : own string;
  (* inherited from lambda.FunctionOptions *)
  retryAttempts : own Z
}.

(** The object literal [{}]. *)
Definition emptyProps : FunctionProps :=
  {| architecture := NoKey; functionName := NoKey; handler := NoKey;
     srcPath := NoKey; runtime := NoKey; diskSize := NoKey;
     memorySize := NoKey; timeout := NoKey; tracing := NoKey;
     enableLiveDev := NoKey; environment := NoKey; bundle := NoKey;
     bind := NoKey; config := NoKey; permissions := NoKey; url := NoKey;
     layers := NoKey; logRetention := NoKey; retryAttempts := NoKey |}.

(** ** [Function.mergeProps] *)

(** [x || {}] for an optional props object. *)
Definition orEmpty (p : option FunctionProps) : FunctionProps :=
  default emptyProps p.

(** [p?.environment || {}] *)
Definition environmentOf (p : option FunctionProps) : gmap string string :=
  default ∅ (read (environment (orEmpty p))).

(** [p?.layers || []], [p?.config || []], [p?.bind || []] *)
Definition listOf {A} (get : FunctionProps → own (list A))
    (p : option FunctionProps) : list A :=
  default [] (read (get (orEmpty p))).

(** [p?.permissions || []], read where neither side is ["*"]. *)
Definition permissionEntries (p : option FunctionProps) : list Permission :=
  match read (permissions (orEmpty p)) with
  | Some (PermList l) => l
  | _ => []
  end.

Definition isWildcard (p : option FunctionProps) : bool :=
  match read (permissions (orEmpty p)) with
  | Some PermAll => true
  | _ => false
  end.

(** [xs.length === 0 ? {} : { xs }] *)
Definition listProp {A} (xs : list A) : own (list A) :=
  match xs with
  | [] => NoKey
  | _ => #xs
  end.

Definition environmentProp (env : gmap string string)
    : own (gmap string string) :=
  if decide (env = ∅) then NoKey else #env.

Definition permissionsProp (baseProps props : option FunctionProps)
    : own Permissions :=
  if isWildcard baseProps then #PermAll
  else if isWildcard props then #PermAll
  else match permissionEntries baseProps ++ permissionEntries props with
       | [] => NoKey
       | l => #(PermList l)
       end.

Definition mergeProps (baseProps props : option FunctionProps)
    : FunctionProps :=
  (* {...a, ...b} keeps the keys of [a] that [b] lacks: [b ∪ a] *)
  let environment_ := environmentOf props ∪ environmentOf baseProps in
  let layers_ := listOf layers baseProps ++ listOf layers props in
  let config_ := listOf config baseProps ++ listOf config props in
  let bind_ := listOf bind baseProps ++ listOf bind props in
  let b := orEmpty baseProps in
  let p := orEmpty props in
  {| architecture := spread (architecture b) (architecture p);
     functionName := spread (functionName b) (functionName p);
     handler := spread (handler b) (handler p);
     srcPath := spread (srcPath b) (srcPath p);
     runtime := spread (runtime b) (runtime p);
     diskSize := spread (diskSize b) (diskSize p);
     memorySize := spread (memorySize b) (memorySize p);
     timeout := spread (timeout b) (timeout p);
     tracing := spread (tracing b) (tracing p);
     enableLiveDev := spread (enableLiveDev b) (enableLiveDev p);
     environment :=
       spread (spread (environment b) (environment p))
              (environmentProp environment_);
     bundle := spread (bundle b) (bundle p);
     bind := spread (spread (bind b) (bind p)) (listProp bind_);
     config := spread (spread (config b) (config p)) (listProp config_);
     permissions :=
       spread (spread (permissions b) (permissions p))
              (permissionsProp baseProps props);
     url := spread (url b) (url p);
     layers := spread (spread (layers b) (layers p)) (listProp layers_);
     logRetention := spread (logRetention b) (logRetention p);
     retryAttempts := spread (retryAttempts b) (retryAttempts p) |}.

(** The head of the constructor: the stack's [defaultFunctionProps] are
    merged under the explicit props, last registered first. *)
Definition applyDefaults (defaultFunctionProps : list FunctionProps)
    (props : FunctionProps) : FunctionProps :=
  foldl (λ props per, mergeProps (Some per) (Some props)) props
        (reverse defaultFunctionProps).

(** The merge of the specification: [merge(base, override)], folded over
    the chain from its least specific fragment, the explicit props last. *)
Definition merge (base override : FunctionProps) : FunctionProps :=
  mergeProps (Some base) (Some override).

Definition specMerge (chain : list FunctionProps) (p : FunctionProps)
    : FunctionProps :=
  match chain with
  | [] => p
  | d1 :: ds => merge (foldl merge d1 ds) p
  end.

(** ** The collaborators of the constructor *)

(** [cdk.Duration] and [cdk.Size] values: an amount of seconds or of
    mebibytes, or what [toCdkDuration] / [toCdkSize] (util/duration.js,
    util/size.js) build from an expression. *)
Inductive CdkDuration : Type :=
| DurationSeconds (n : Z)
| ToCdkDuration (e : string).

Inductive CdkSize : Type :=
| SizeMebibytes (n : Z)
| ToCdkSize (e : string).

Inductive Architecture : Type := ARM_64 | X86_64.

Inductive Code : Type :=
| BridgeAsset         (* Code.fromAsset(<dist/support/bridge>) *)
| InlinePlaceholder.  (* Code.fromInline("export function placeholder() {}") *)

(** The object handed to [super(scope, id, ...)], as far as [lambda.Function]
    reads it.  A member of [lambda.Tracing] or [logs.RetentionDays] is named
    by its key, a [lambda.Runtime] by its identifier. *)
Record LambdaProps : Type := {
  lp_architecture : option Architecture;
  lp_code : Code;
  lp_handler : string;
  lp_functionName : option string;
  lp_runtime : string;
  lp_memorySize : Z;
  lp_ephemeralStorageSize : CdkSize;
  lp_timeout : CdkDuration;
  lp_tracing : string;
  lp_environment : option (gmap string string);
  lp_layers : list Construct;
  lp_logRetention : option string;
  lp_retryAttempts : option Z
}.

(** What the constructs of this file obtain from the outside.  A call
    that can throw answers with a [result]. *)
Class Host : Type := {
  (** [toCdkSize] and [toCdkDuration], of util/size.js and
      util/duration.js: what they build from an expression, or throw *)
  toCdkSize : string → result CdkSize;
  toCdkDuration : string → result CdkDuration;
  (** [cdk.Size.toMebibytes] *)
  toMebibytes : CdkSize → result Z;
  (** [path.posix.join] *)
  posixJoin : string → string → string;
  (** [node.addr] of the construct at a place of the tree *)
  nodeAddr : path → string;
  (** a [functionName] callback applied to the stack and the merged props *)
  callFunctionName : nat → FunctionProps → result string;
  (** util/functionBinding.js, as [Object.entries] lists them *)
  bindEnvironment : SSTConstruct → list (string * string);
  bindPermissions : SSTConstruct → list (string * list string);
  (** [FunctionBinding.ssmPrefix] *)
  ssmPrefix : string;
  (** what the constructor of [lambda.Function] throws for the props it
      is given, if it throws *)
  functionError : LambdaProps → option error
}.

(** ** The property normalizers *)

(** [n || d] on numbers. *)
Definition numberOr (n : option Z) (d : Z) : Z :=
  match n with
  | Some n => if decide (n = 0%Z) then d else n
  | None => d
  end.

(** [s || d] on strings. *)
Definition stringOr (s : option string) (d : string) : string :=
  match s with
  | Some s => if decide (s = "") then d else s
  | None => d
  end.

(** [cdk.Duration.seconds] and [cdk.Size.mebibytes]: cdk throws for a
    negative amount. *)
Definition seconds (n : Z) : result CdkDuration :=
  if decide (n < 0)%Z then Err CdkError else Ok (DurationSeconds n).

Definition mebibytes (n : Z) : result CdkSize :=
  if decide (n < 0)%Z then Err CdkError else Ok (SizeMebibytes n).

Section Normalizers.
Context `{Host}.

Definition normalizeMemorySize (memorySize : option NumberOr) : result Z :=
  match memorySize with
  | Some (Expr e) => size ← toCdkSize e; toMebibytes size
  | Some (Num n) => Ok (numberOr (Some n) 1024)
  | None => Ok (numberOr None 1024)
  end.

Definition normalizeDiskSize (diskSize : option NumberOr) : result CdkSize :=
  match diskSize with
  | Some (Expr e) => toCdkSize e
  | Some (Num n) => mebibytes (numberOr (Some n) 512)
  | None => mebibytes (numberOr None 512)
  end.

Definition normalizeTimeout (timeout : option NumberOr)
    : result CdkDuration :=
  match timeout with
  | Some (Expr e) => toCdkDuration e
  | Some (Num n) => seconds (numberOr (Some n) 10)
  | None => seconds (numberOr None 10)
  end.

End Normalizers.

(** The keys of the [supportedRuntimes] object literal. *)
Definition supportedRuntimes : list string :=
  [ "nodejs"; "nodejs4.3"; "nodejs6.10"; "nodejs8.10"; "nodejs10.x";
    "nodejs12.x"; "nodejs14.x"; "nodejs16.x";
    "python2.7"; "python3.6"; "python3.7"; "python3.8"; "python3.9";
    "dotnetcore1.0"; "dotnetcore2.0"; "dotnetcore2.1"; "dotnetcore3.1";
    "dotnet6"; "java8"; "java11"; "go1.x" ].

(** An object literal inherits the members of [Object.prototype]; the
    lookup [o[k]] finds them as well, and each of them is truthy. *)
Definition objectPrototypeKeys : list string :=
  [ "constructor"; "hasOwnProperty"; "isPrototypeOf";
    "propertyIsEnumerable"; "toLocaleString"; "toString"; "valueOf";
    "__proto__"; "__defineGetter__"; "__defineSetter__";
    "__lookupGetter__"; "__lookupSetter__" ].

(** Whether [supportedRuntimes[runtime]] is truthy. *)
Definition lookupSupportedRuntime (runtime : string) : bool :=
  bool_decide (runtime ∈ supportedRuntimes)
  || bool_decide (runtime ∈ objectPrototypeKeys).

Definition normalizeRuntime (runtime : option string) : result string :=
  let runtime := stringOr runtime "nodejs14.x" in
  if negb (lookupSupportedRuntime runtime) then Err UnsupportedRuntime
  else Ok runtime.

(** [srcPath.replace(/\/+$/, "")] *)
Fixpoint normalizeSrcPath (srcPath : string) : string :=
  match srcPath with
  | EmptyString => EmptyString
  | String c rest =>
      let rest' := normalizeSrcPath rest in
      if decide (c = "/"%char ∧ rest' = "") then "" else String c rest'
  end.

(** [s.startsWith(p)] *)
Definition startsWith (s p : string) : bool := String.prefix p s.

(** [path.isAbsolute] of the posix flavour. *)
Definition isAbsolute (p : string) : bool := startsWith p "/".

(** *** [Function.copyFiles] *)

(** The file system, reached through [fs.existsSync] and [fs.copySync],
    and [path.join]. *)
Class FileSystemOps (FileSystem : Type) : Type := {
  existsSync : FileSystem → string → bool;
  copySync : string → string → FileSystem → FileSystem;
  pathJoin : string → string → string
}.

Section CopyFiles.
Context `{FileSystemOps FileSystem}.

(** The body of the [forEach] callback. *)
Definition copyEntry (srcPath buildPath : string)
    (entry : FunctionBundleCopyFilesProps) (fs : FileSystem)
    : result FileSystem :=
  let fromPath := pathJoin srcPath (from entry) in
  if negb (existsSync fs fromPath) then Err MissingCopySource
  else
    let to_ := stringOr (to entry) (from entry) in
    if isAbsolute to_ then Err InvalidCopyDestination
    else
      let toPath := pathJoin buildPath to_ in
      Ok (copySync fromPath toPath fs).

Fixpoint copyEntries (srcPath buildPath : string)
    (entries : list FunctionBundleCopyFilesProps) (fs : FileSystem)
    : result FileSystem :=
  match entries with
  | [] => Ok fs
  | entry :: entries =>
      fs ← copyEntry srcPath buildPath entry fs;
      copyEntries srcPath buildPath entries fs
  end.

Definition copyFiles (bundle : option FunctionBundleProp)
    (srcPath buildPath : string) (fs : FileSystem) : result FileSystem :=
  match bundle with
  | None => Ok fs
  | Some (BundleBool _) => Ok fs
  | Some (BundleObject o) =>
      match bundle_copyFiles o with
      | None => Ok fs
      | Some entries => copyEntries srcPath buildPath entries fs
      end
  end.

End CopyFiles.

(** ** The construct tree and [Function.handleImportedLayer] *)

Record Tree : Type := {
  constructs : gmap path Construct;
  (** [a.addDependency(b)], kept per pair of stacks *)
  dependencies : gset (path * path)
}.

(** [node.id] *)
Definition nodeId (c : path) : string := default "" (head c).

(** [node.path]: the ids from the root down, joined by ["/"]. *)
Definition nodePath (c : path) : string := String.concat "/" (reverse c).

(** The id under which cdk keeps a construct: the id it is given with
    every ["/"], the separator of paths, written ["--"]. *)
Fixpoint sanitizeId (id : string) : string :=
  match id with
  | EmptyString => EmptyString
  | String c rest =>
      if decide (c = "/"%char) then String "-" (String "-" (sanitizeId rest))
      else String c (sanitizeId rest)
  end.

(** [node.tryFindChild(id)] *)
Definition tryFindChild (scope : path) (id : string) (t : Tree)
    : option Construct :=
  constructs t !! (sanitizeId id :: scope).

(** [Stack.of(c)]: the construct itself or its nearest ancestor that is a
    stack; cdk throws when there is none. *)
Fixpoint stackOf (t : Tree) (c : path) : result path :=
  match constructs t !! c with
  | Some {| payload := IsStack |} => Ok c
  | _ => match c with
         | [] => Err CdkError
         | _ :: scope => stackOf t scope
         end
  end.

(** [new C(scope, id, ...)]: cdk refuses an empty id under a scope, and
    an id that the scope already has. *)
Definition newConstruct (scope : path) (id : string) (p : Payload) (t : Tree)
    : result (Construct * Tree) :=
  if decide (id = "") then Err CdkError
  else
    match tryFindChild scope id t with
    | Some _ => Err CdkError
    | None =>
        let c := {| node_path := sanitizeId id :: scope; payload := p |} in
        Ok (c, {| constructs := <[sanitizeId id :: scope := c]> (constructs t);
                  dependencies := dependencies t |})
    end.

(** Whether [b] is reached from [a] along at most [n] of the
    dependencies, none of them taken twice. *)
Fixpoint reaches (n : nat) (deps : gset (path * path)) (a b : path) : bool :=
  bool_decide (a = b)
  || match n with
     | O => false
     | S n =>
         existsb (λ e, bool_decide (e.1 = a)
                       && reaches n (deps ∖ {[ e ]}) e.2 b)
                 (elements deps)
     end.

(** The stack [a] is [b] or depends on it, directly or through other
    stacks. *)
Definition dependsOn (deps : gset (path * path)) (a b : path) : bool :=
  reaches (size deps) deps a b.

(** [stack.addDependency(target)]: nothing to do for the stack itself;
    cdk throws when the target depends on the stack, since the two would
    then depend on each other. *)
Definition addDependency (stack target : path) (t : Tree) : result Tree :=
  if decide (stack = target) then Ok t
  else if dependsOn (dependencies t) target stack then Err CdkError
  else Ok {| constructs := constructs t;
             dependencies := {[ (stack, target) ]} ∪ dependencies t |}.

(** [layer.layerVersionArn] *)
Definition layerVersionArn (layer : Construct) : option Arn :=
  match payload layer with
  | IsLayer arn => Some arn
  | _ => None
  end.

(** [cdk.Token.isUnresolved] *)
Definition isUnresolved (arn : option Arn) : bool :=
  match arn with
  | Some (ArnRef _) | Some (ArnSsmValue _) => true
  | Some (ArnLiteral _) | None => false
  end.

Section Layers.
Context `{Host}.

(** [`${layer.node.id}Arn-${layer.node.addr}`] *)
Definition parameterId (layer : Construct) : string :=
  nodeId (node_path layer) +:+ "Arn-" +:+ nodeAddr (node_path layer).

(** [`/layers/${layerStack.node.id}/${parameterId}`] *)
Definition parameterName (layerStack : path) (layer : Construct) : string :=
  "/layers/" +:+ nodeId layerStack +:+ "/" +:+ parameterId layer.

(** [`I${layer.node.id}-${layer.node.addr}`] *)
Definition layerId (layer : Construct) : string :=
  "I" +:+ nodeId (node_path layer) +:+ "-" +:+ nodeAddr (node_path layer).

Definition handleImportedLayer (scope : path) (layer : Construct) (t : Tree)
    : result (Construct * Tree) :=
  layerStack ← stackOf t (node_path layer);
  currentStack ← stackOf t scope;
  if bool_decide (layerStack = currentStack)
     || negb (isUnresolved (layerVersionArn layer))
  then Ok (layer, t)
  else
    t ← addDependency currentStack layerStack t;
    t ← match tryFindChild layerStack (parameterId layer) t with
        | Some _ => Ok t
        | None =>
            '(_, t) ← newConstruct layerStack (parameterId layer)
                        (IsStringParameter (parameterName layerStack layer)
                                           (layerVersionArn layer)) t;
            Ok t
        end;
    match tryFindChild scope (layerId layer) t with
    | Some existingLayer => Ok (existingLayer, t)
    | None =>
        newConstruct scope (layerId layer)
          (IsLayer (ArnSsmValue (parameterName layerStack layer))) t
    end.

(** [Function.buildLayers]: [(props.layers || []).map(...)] *)
Fixpoint mapLayers (scope : path) (id : string) (ls : list LayerProp)
    (t : Tree) : result (list Construct * Tree) :=
  match ls with
  | [] => Ok ([], t)
  | l :: ls =>
      '(c, t) ← match l with
                | LayerArn arn =>
                    newConstruct scope (id +:+ arn)
                                 (IsLayer (ArnLiteral arn)) t
                | LayerVersion layer => handleImportedLayer scope layer t
                end;
      '(cs, t) ← mapLayers scope id ls t;
      Ok (c :: cs, t)
  end.

Definition buildLayers (scope : path) (id : string) (props : FunctionProps)
    (t : Tree) : result (list Construct * Tree) :=
  mapLayers scope id (default [] (read (layers props))) t.

End Layers.

(** ** The constructed function *)

Record App : Type := {
  mode : string;
  debugIncreaseTimeout : bool;
  skipBuild : bool;
  name : string;
  stage : string;
  appPath : string
}.

Inductive FunctionUrlAuthType : Type := AWS_IAM | NONE.

(** The argument of [addFunctionUrl]; [cors] is what
    [functionUrlCors.buildCorsConfig] is given. *)
Record FunctionUrl : Type := {
  authType : FunctionUrlAuthType;
  cors : CorsProp
}.

(** What the deferred build task holds on to: the argument of
    [Runtime.Handler.bundle] and the bundle that [copyFiles] receives. *)
Record BuildRequest : Type := {
  build_id : string;
  build_root : string;
  build_handler : string;
  build_runtime : string;
  build_srcPath : string;
  build_bundle : option FunctionBundleProp;
  build_copyBundle : option FunctionBundleProp
}.

Record FunctionConstruct : Type := {
  base : LambdaProps;
  (** the environment of the resource, as [addEnvironment] leaves it *)
  fn_environment : gmap string string;
  (** the calls of [attachPermissionsToRole], oldest first *)
  fn_granted : list Permissions;
  functionUrl : option FunctionUrl;
  fn_id : string;
  fn_props : FunctionProps;
  _isLiveDevEnabled : bool;
  localId : string;
  deferredBuild : option BuildRequest
}.

Definition NODEJS_16_X : string := "nodejs16.x".

(** [lambda.Function.addEnvironment]: the key is set, whatever it held. *)
Definition addEnvironment (key value : string) (fn : FunctionConstruct)
    : FunctionConstruct :=
  {| base := base fn;
     fn_environment := <[key := value]> (fn_environment fn);
     fn_granted := fn_granted fn; functionUrl := functionUrl fn;
     fn_id := fn_id fn; fn_props := fn_props fn;
     _isLiveDevEnabled := _isLiveDevEnabled fn; localId := localId fn;
     deferredBuild := deferredBuild fn |}.

(** [attachPermissionsToRole(this.role, permissions)] *)
Definition grant (permissions : Permissions) (fn : FunctionConstruct)
    : FunctionConstruct :=
  {| base := base fn; fn_environment := fn_environment fn;
     fn_granted := fn_granted fn ++ [permissions];
     functionUrl := functionUrl fn;
     fn_id := fn_id fn; fn_props := fn_props fn;
     _isLiveDevEnabled := _isLiveDevEnabled fn; localId := localId fn;
     deferredBuild := deferredBuild fn |}.

Definition setFunctionUrl (u : FunctionUrl) (fn : FunctionConstruct)
    : FunctionConstruct :=
  {| base := base fn; fn_environment := fn_environment fn;
     fn_granted := fn_granted fn; functionUrl := Some u;
     fn_id := fn_id fn; fn_props := fn_props fn;
     _isLiveDevEnabled := _isLiveDevEnabled fn; localId := localId fn;
     deferredBuild := deferredBuild fn |}.

(** [p instanceof Job] *)
Definition asJob (p : Permission) : option SSTConstruct :=
  match p with
  | PermConstruct c =>
      match construct_kind c with
      | KindJob => Some c
      | _ => None
      end
  | _ => None
  end.

Section Methods.
Context `{Host}.

(** [attachPermissions], with the call of [this.bind([job])] left open:
    [bind] and [attachPermissions] call each other. *)
Definition attachPermissionsWith
    (bindJob : SSTConstruct → FunctionConstruct → FunctionConstruct)
    (permissions : Permissions) (fn : FunctionConstruct)
    : FunctionConstruct :=
  let fn := grant permissions fn in
  match permissions with
  | PermAll => fn
  | PermList l => foldl (λ fn job, bindJob job fn) fn (omap asJob l)
  end.

(** [bind]: the permissions it attaches are single policy statements,
    among which there is no job to bind in turn. *)
Definition Function_bind (cs : list SSTConstruct) (fn : FunctionConstruct)
    : FunctionConstruct :=
  foldl (λ fn c,
    let fn := foldl (λ fn kv, addEnvironment kv.1 kv.2 fn) fn
                    (bindEnvironment c) in
    foldl (λ fn ar,
             attachPermissionsWith (λ _ fn, fn)
               (PermList [PermStatement [ar.1] ar.2]) fn)
          fn (bindPermissions c))
    fn cs.

Definition attachPermissions (permissions : Permissions)
    (fn : FunctionConstruct) : FunctionConstruct :=
  attachPermissionsWith (λ job, Function_bind [job]) permissions fn.

Definition addConfig (cfg : list SSTConstruct) (fn : FunctionConstruct)
    : FunctionConstruct :=
  Function_bind cfg fn.

Definition createUrl (fn : FunctionConstruct) : FunctionConstruct :=
  match read (url (fn_props fn)) with
  | None | Some (UrlBool false) => fn
  | Some (UrlBool true) =>
      setFunctionUrl {| authType := NONE; cors := CorsBool true |} fn
  | Some (UrlProps authorizer c) =>
      setFunctionUrl
        {| authType := if decide (authorizer = Some "iam")
                       then AWS_IAM else NONE;
           cors := default (CorsBool true) c |} fn
  end.

End Methods.

(** ** The constructor of [Function] *)

Definition upperChar (c : ascii) : ascii :=
  let n := nat_of_ascii c in
  if ((97 <=? n) && (n <=? 122))%nat then ascii_of_nat (n - 32) else c.

(** [s.toUpperCase()], on the ASCII letters *)
Fixpoint toUpperCase (s : string) : string :=
  match s with
  | EmptyString => EmptyString
  | String c rest => String (upperChar c) (toUpperCase rest)
  end.

(** [s.replace(/c/g, d)] for a single character [c] *)
Fixpoint replaceAll (c d : ascii) (s : string) : string :=
  match s with
  | EmptyString => EmptyString
  | String x rest =>
      String (if decide (x = c) then d else x) (replaceAll c d rest)
  end.

Inductive DeploymentMode : Type := LiveDev | SkipBuild | Build.

Definition selectMode (app : App) (isLiveDevEnabled : bool) : DeploymentMode :=
  if isLiveDevEnabled && bool_decide (mode app = "start") then LiveDev
  else if skipBuild app then SkipBuild
  else Build.

(** [!handler] is the throw of "No handler defined". *)
Definition validateHandler (handler : option string) : result string :=
  match handler with
  | Some h => if decide (h = "") then Err MissingHandler else Ok h
  | None => Err MissingHandler
  end.

(** [!bundle] *)
Definition falsyBundle (bundle : option FunctionBundleProp) : bool :=
  match bundle with
  | None | Some (BundleBool false) => true
  | _ => false
  end.

(** The block under "Validate input": the bundle after its defaults. *)
Definition validateBundle (runtime srcPath : string)
    (propsBundle : option FunctionBundleProp)
    : result (option FunctionBundleProp) :=
  if startsWith runtime "nodejs" then
    let bundle := match propsBundle with
                  | None => Some (BundleBool true)
                  | Some _ => propsBundle
                  end in
    if falsyBundle bundle && bool_decide (srcPath = ".")
    then Err InvalidBundleConfig else Ok bundle
  else if startsWith runtime "python" then
    let bundle := match propsBundle with
                  | None => Some (BundleObject
                                    {| bundle_copyFiles := None;
                                       experimentalUseProvidedRuntime := None |})
                  | Some _ => propsBundle
                  end in
    if bool_decide (srcPath = ".")
    then Err InvalidBundleConfig else Ok bundle
  else Ok propsBundle.

Section Constructor.
Context `{Host}.

Definition localIdOf (scope : path) (id : string) : string :=
  replaceAll "." "-"
    (replaceAll "/" "-"
       (replaceAll "$" "-" (posixJoin (nodePath scope) id))).

Definition iotStatement : Permission := PermStatement ["iot:*"] ["*"].

(** [props.enableLiveDev === false ? false : true] *)
Definition liveDevEnabled (props : FunctionProps) : bool :=
  match read (enableLiveDev props) with
  | Some false => false
  | _ => true
  end.

(** The statements of the constructor that follow the call of [super]. *)
Definition afterSuper (app : App) (runtime : string) (props : FunctionProps)
    (fn : FunctionConstruct) : FunctionConstruct :=
  let fn := if startsWith runtime "nodejs"
            then addEnvironment "AWS_NODEJS_CONNECTION_REUSE_ENABLED" "1" fn
            else fn in
  let fn := attachPermissions
              (default (PermList []) (read (permissions props))) fn in
  let fn := addEnvironment "SST_APP" (name app) fn in
  let fn := addEnvironment "SST_STAGE" (stage app) fn in
  let fn := if decide (ssmPrefix = "") then fn
            else addEnvironment "SST_SSM_PREFIX" ssmPrefix fn in
  let fn := addConfig (default [] (read (config props))) fn in
  let fn := Function_bind (default [] (read (bind props))) fn in
  createUrl fn.

(** [props.functionName && (typeof props.functionName === "string" ? ... )] *)
Definition resolveFunctionName (props : FunctionProps)
    : result (option string) :=
  match read (functionName props) with
  | None => Ok None
  | Some (NameString s) => Ok (Some s)
  | Some (NameCallback cb) => name ← callFunctionName cb props; Ok (Some name)
  end.

(** [super(scope, id, props)]: the function becomes a child of the scope,
    under its id, and [lambda.Function] takes the props or throws. *)
Definition super (scope : path) (id : string) (props : LambdaProps)
    (t : Tree) : result Tree :=
  '(_, t) ← newConstruct scope id IsOther t;
  match functionError props with
  | Some e => Err e
  | None => Ok t
  end.

(** [new Function(scope, id, props)] in a stack whose
    [defaultFunctionProps] are given.  The statements are taken in the
    order of the source; the arguments of [super], [buildLayers] among
    them, are evaluated before it is called.  Writes that only reach the
    [App] (warnings, [registerLambdaHandler]) are left out. *)
Definition construct (app : App) (defaultFunctionProps : list FunctionProps)
    (scope : path) (id : string) (props : FunctionProps) (t : Tree)
    : result (FunctionConstruct * Tree) :=
  _ ← stackOf t scope;
  let props := applyDefaults defaultFunctionProps props in
  functionName_ ← resolveFunctionName props;
  timeout_ ← normalizeTimeout (read (timeout props));
  let srcPath_ := normalizeSrcPath (stringOr (read (srcPath props)) ".") in
  runtime_ ← normalizeRuntime (read (runtime props));
  let architecture_ :=
    if decide (read (architecture props) = Some "arm_64") then Some ARM_64
    else if decide (read (architecture props) = Some "x86_64")
         then Some X86_64
    else None in
  memorySize_ ← normalizeMemorySize (read (memorySize props));
  diskSize_ ← normalizeDiskSize (read (diskSize props));
  let tracing_ := toUpperCase (stringOr (read (tracing props)) "active") in
  let logRetention_ := toUpperCase <$> read (logRetention props) in
  let isLiveDevEnabled := liveDevEnabled props in
  handler_ ← validateHandler (read (handler props));
  bundle_ ← validateBundle runtime_ srcPath_ (read (bundle props));
  let localId_ := localIdOf scope id in
  let new (b : LambdaProps) (task : option BuildRequest) :=
    {| base := b;
       fn_environment := default ∅ (lp_environment b);
       fn_granted := []; functionUrl := None;
       fn_id := id; fn_props := props;
       _isLiveDevEnabled := isLiveDevEnabled; localId := localId_;
       deferredBuild := task |} in
  let placeholder (layers_ : list Construct) :=
    {| lp_architecture := architecture_;
       lp_code := InlinePlaceholder;
       lp_handler := "index.placeholder";
       lp_functionName := functionName_;
       lp_runtime := NODEJS_16_X;
       lp_memorySize := memorySize_;
       lp_ephemeralStorageSize := diskSize_;
       lp_timeout := timeout_;
       lp_tracing := tracing_;
       lp_environment := read (environment props);
       lp_layers := layers_;
       lp_logRetention := logRetention_;
       lp_retryAttempts := read (retryAttempts props) |} in
  '(fn, t) ←
    match selectMode app isLiveDevEnabled with
    | LiveDev =>
        let b :=
          {| lp_architecture := architecture_;
             lp_code := BridgeAsset;
             lp_handler := "bridge.handler";
             lp_functionName := functionName_;
             lp_runtime := NODEJS_16_X;
             lp_memorySize := memorySize_;
             lp_ephemeralStorageSize := diskSize_;
             lp_timeout := if debugIncreaseTimeout app
                           then DurationSeconds 900 else timeout_;
             lp_tracing := tracing_;
             lp_environment :=
               Some (<["SST_FUNCTION_ID" := localId_]>
                      (<["SST_DEBUG_SRC_HANDLER" := handler_]>
                        (<["SST_DEBUG_SRC_PATH" := srcPath_]>
                          (default ∅ (read (environment props))))));
             lp_layers := [];
             lp_logRetention := logRetention_;
             lp_retryAttempts := Some 0%Z |} in
        t ← super scope id b t;
        Ok (attachPermissions (PermList [iotStatement]) (new b None), t)
    | SkipBuild =>
        '(layers_, t) ← buildLayers scope id props t;
        t ← super scope id (placeholder layers_) t;
        Ok (new (placeholder layers_) None, t)
    | Build =>
        '(layers_, t) ← buildLayers scope id props t;
        t ← super scope id (placeholder layers_) t;
        Ok (new (placeholder layers_)
                (Some {| build_id := localId_;
                         build_root := appPath app;
                         build_handler := handler_;
                         build_runtime := runtime_;
                         build_srcPath := srcPath_;
                         build_bundle := read (bundle props);
                         build_copyBundle := bundle_ |}), t)
    end;
  Ok (afterSuper app runtime_ props fn, t).

End Constructor.

(** ** Vocabulary of the statements *)

(** The fields that [mergeProps] leaves to the two spreads. *)
Inductive ScalarKey : Type :=
| K_architecture | K_functionName | K_handler | K_srcPath | K_runtime
| K_diskSize | K_memorySize | K_timeout | K_tracing | K_enableLiveDev
| K_bundle | K_url | K_logRetention | K_retryAttempts.

Definition scalarType (k : ScalarKey) : Type :=
  match k with
  | K_architecture | K_handler | K_srcPath | K_runtime | K_tracing
  | K_logRetention => string
  | K_functionName => FunctionNameProp
  | K_diskSize | K_memorySize | K_timeout => NumberOr
  | K_enableLiveDev => bool
  | K_bundle => FunctionBundleProp
  | K_url => FunctionUrlProp
  | K_retryAttempts => Z
  end.

Definition scalar (k : ScalarKey) : FunctionProps → own (scalarType k) :=
  match k with
  | K_architecture => architecture
  | K_functionName => functionName
  | K_handler => handler
  | K_srcPath => srcPath
  | K_runtime => runtime
  | K_diskSize => diskSize
  | K_memorySize => memorySize
  | K_timeout => timeout
  | K_tracing => tracing
  | K_enableLiveDev => enableLiveDev
  | K_bundle => bundle
  | K_url => url
  | K_logRetention => logRetention
  | K_retryAttempts => retryAttempts
  end.

(** The field of the first fragment of the list that has the key. *)
Fixpoint mostSpecific {A} (get : FunctionProps → own A)
    (fragments : list FunctionProps) : own A :=
  match fragments with
  | [] => NoKey
  | f :: rest =>
      match get f with
      | NoKey => mostSpecific get rest
      | Key v => Key v
      end
  end.

(** The value of the first fragment of the list that holds one under the
    key: the reading of "the most specific fragment that defines it" in
    which a key that holds [undefined] defines nothing. *)
Fixpoint mostSpecificDefined {A} (get : FunctionProps → own A)
    (fragments : list FunctionProps) : option A :=
  match fragments with
  | [] => None
  | f :: rest =>
      match read (get f) with
      | Some v => Some v
      | None => mostSpecificDefined get rest
      end
  end.

(** Object literals are written [{...p, key: v}], one key at a time. *)
Definition withHandler (v : string) (p : FunctionProps) : FunctionProps :=
  {| architecture := architecture p; functionName := functionName p;
     handler := #v; srcPath := srcPath p; runtime := runtime p;
     diskSize := diskSize p; memorySize := memorySize p;
     timeout := timeout p; tracing := tracing p;
     enableLiveDev := enableLiveDev p; environment := environment p;
     bundle := bundle p; bind := bind p; config := config p;
     permissions := permissions p; url := url p; layers := layers p;
     logRetention := logRetention p; retryAttempts := retryAttempts p |}.

Definition withSrcPath (v : string) (p : FunctionProps) : FunctionProps :=
  {| architecture := architecture p; functionName := functionName p;
     handler := handler p; srcPath := #v; runtime := runtime p;
     diskSize := diskSize p; memorySize := memorySize p;
     timeout := timeout p; tracing := tracing p;
     enableLiveDev := enableLiveDev p; environment := environment p;
     bundle := bundle p; bind := bind p; config := config p;
     permissions := permissions p; url := url p; layers := layers p;
     logRetention := logRetention p; retryAttempts := retryAttempts p |}.

Definition withRuntime (v : string) (p : FunctionProps) : FunctionProps :=
  {| architecture := architecture p; functionName := functionName p;
     handler := handler p; srcPath := srcPath p; runtime := #v;
     diskSize := diskSize p; memorySize := memorySize p;
     timeout := timeout p; tracing := tracing p;
     enableLiveDev := enableLiveDev p; environment := environment p;
     bundle := bundle p; bind := bind p; config := config p;
     permissions := permissions p; url := url p; layers := layers p;
     logRetention := logRetention p; retryAttempts := retryAttempts p |}.

Definition withTimeout (v : NumberOr) (p : FunctionProps) : FunctionProps :=
  {| architecture := architecture p; functionName := functionName p;
     handler := handler p; srcPath := srcPath p; runtime := runtime p;
     diskSize := diskSize p; memorySize := memorySize p; timeout := #v;
     tracing := tracing p; enableLiveDev := enableLiveDev p;
     environment := environment p; bundle := bundle p; bind := bind p;
     config := config p; permissions := permissions p; url := url p;
     layers := layers p; logRetention := logRetention p;
     retryAttempts := retryAttempts p |}.

Definition withEnvironment (v : gmap string string) (p : FunctionProps) : FunctionProps :=
  {| architecture := architecture p; functionName := functionName p;
     handler := handler p; srcPath := srcPath p; runtime := runtime p;
     diskSize := diskSize p; memorySize := memorySize p;
     timeout := timeout p; tracing := tracing p;
     enableLiveDev := enableLiveDev p; environment := #v; bundle := bundle p;
     bind := bind p; config := config p; permissions := permissions p;
     url := url p; layers := layers p; logRetention := logRetention p;
     retryAttempts := retryAttempts p |}.

Definition withBundle (v : FunctionBundleProp) (p : FunctionProps) : FunctionProps :=
  {| architecture := architecture p; functionName := functionName p;
     handler := handler p; srcPath := srcPath p; runtime := runtime p;
     diskSize := diskSize p; memorySize := memorySize p;
     timeout := timeout p; tracing := tracing p;
     enableLiveDev := enableLiveDev p; environment := environment p;
     bundle := #v; bind := bind p; config := config p;
     permissions := permissions p; url := url p; layers := layers p;
     logRetention := logRetention p; retryAttempts := retryAttempts p |}.

Definition withPermissions (v : Permissions) (p : FunctionProps) : FunctionProps :=
  {| architecture := architecture p; functionName := functionName p;
     handler := handler p; srcPath := srcPath p; runtime := runtime p;
     diskSize := diskSize p; memorySize := memorySize p;
     timeout := timeout p; tracing := tracing p;
     enableLiveDev := enableLiveDev p; environment := environment p;
     bundle := bundle p; bind := bind p; config := config p;
     permissions := #v; url := url p; layers := layers p;
     logRetention := logRetention p; retryAttempts := retryAttempts p |}.

Definition withRetryAttempts (v : Z) (p : FunctionProps) : FunctionProps :=
  {| architecture := architecture p; functionName := functionName p;
     handler := handler p; srcPath := srcPath p; runtime := runtime p;
     diskSize := diskSize p; memorySize := memorySize p;
     timeout := timeout p; tracing := tracing p;
     enableLiveDev := enableLiveDev p; environment := environment p;
     bundle := bundle p; bind := bind p; config := config p;
     permissions := permissions p; url := url p; layers := layers p;
     logRetention := logRetention p; retryAttempts := #v |}.

(** The pattern of the five fields that [mergeProps] rebuilds: both sides
    are read as values [eff x], [eff y], these are combined by [op], and
    [write] sets the key unless the combination is empty. *)
Definition mergedField {A M} (eff : own A → M) (op : M → M → M)
    (write : M → own A) (x y : own A) : own A :=
  spread (spread x y) (write (op (eff x) (eff y))).

(** A permission set read as in the specification: [None] is the wildcard,
    otherwise the entries, a missing set having none. *)
Definition permissionSet (x : own Permissions) : option (list Permission) :=
  match read x with
  | Some PermAll => None
  | Some (PermList l) => Some l
  | None => Some []
  end.

Definition joinPermissionSets (m n : option (list Permission))
    : option (list Permission) :=
  match m, n with
  | Some l1, Some l2 => Some (l1 ++ l2)
  | _, _ => None
  end.

Definition writePermissionSet (m : option (list Permission))
    : own Permissions :=
  match m with
  | None => #PermAll
  | Some [] => NoKey
  | Some l => #(PermList l)
  end.

(** The list fields and the environment, read the same way. *)
Definition effList {A} (x : own (list A)) : list A := default [] (read x).

Definition effEnv (x : own (gmap string string)) : gmap string string :=
  default ∅ (read x).

(** [{...m, ...n}] on maps *)
Definition spreadMap (m n : gmap string string) : gmap string string := n ∪ m.

(** What the pattern needs: a monoid in which only the unit splits into
    units, and a [write] that drops the unit and keeps everything else. *)
Class FieldMonoid {A M : Type} (eff : own A → M) (op : M → M → M)
    (write : M → own A) (neutral : M) : Prop := {
  fm_assoc : ∀ l m n, op l (op m n) = op (op l m) n;
  fm_unit : ∀ m n, op m n = neutral → m = neutral ∧ n = neutral;
  fm_dec : ∀ m, m = neutral ∨ m ≠ neutral;
  fm_write_unit : write neutral = NoKey;
  fm_write_other : ∀ m, m ≠ neutral → write m ≠ NoKey ∧ eff (write m) = m
}.

(** The destination of a copied file: [entry.to || entry.from]. *)
Definition destination (entry : FunctionBundleCopyFilesProps) : string :=
  stringOr (to entry) (from entry).

Section CopyVocabulary.
Context `{FileSystemOps FileSystem}.

(** The copy that an entry asks for. *)
Definition copyOf (srcPath buildPath : string)
    (entry : FunctionBundleCopyFilesProps) (fs : FileSystem) : FileSystem :=
  copySync (pathJoin srcPath (from entry))
           (pathJoin buildPath (destination entry)) fs.

(** Every entry passes both checks when its turn comes, that is after the
    entries before it have been copied. *)
Fixpoint allPass (srcPath buildPath : string)
    (entries : list FunctionBundleCopyFilesProps) (fs : FileSystem) : Prop :=
  match entries with
  | [] => True
  | entry :: entries =>
      existsSync fs (pathJoin srcPath (from entry)) = true
      ∧ isAbsolute (destination entry) = false
      ∧ allPass srcPath buildPath entries (copyOf srcPath buildPath entry fs)
  end.

Definition copyAll (srcPath buildPath : string)
    (entries : list FunctionBundleCopyFilesProps) (fs : FileSystem)
    : FileSystem :=
  foldl (λ fs entry, copyOf srcPath buildPath entry fs) fs entries.

End CopyVocabulary.

(** [fn'] has the base of [fn] and every variable that [fn] has. *)
Definition extends (fn fn' : FunctionConstruct) : Prop :=
  base fn' = base fn
  ∧ ∀ key, is_Some (fn_environment fn !! key) →
           is_Some (fn_environment fn' !! key).

(** No binding of the constructs writes the variable [key]. *)
Definition unbound `{Host} (key : string) (cs : list SSTConstruct) : Prop :=
  ∀ c kv, c ∈ cs → kv ∈ bindEnvironment c → kv.1 ≠ key.

(** The jobs among the permissions: [attachPermissions] binds them. *)
Definition jobsOf (permissions : Permissions) : list SSTConstruct :=
  match permissions with
  | PermAll => []
  | PermList l => omap asJob l
  end.

(** A variable of the function that a construction returns. *)
Definition constructedVariable (key : string)
    (r : result (FunctionConstruct * Tree)) : result (option string) :=
  match r with
  | Ok (fn, _) => Ok (fn_environment fn !! key)
  | Err e => Err e
  end.

(** The bookkeeping variables of live development. *)
Definition debugKeys : list string :=
  [ "SST_DEBUG_SRC_PATH"; "SST_DEBUG_SRC_HANDLER"; "SST_FUNCTION_ID" ].

(** The constructs that the constructor binds: the jobs among the
    permissions, the config and the bind list. *)
Definition boundConstructs (props : FunctionProps) : list SSTConstruct :=
  jobsOf (default (PermList []) (read (permissions props)))
  ++ default [] (read (config props)) ++ default [] (read (bind props)).

(** ** [Function.fromDefinition] and [Function.isInlineDefinition] *)

(** The object has the key. *)
Definition isKey {A} (f : own A) : bool :=
  match f with
  | NoKey => false
  | Key _ => true
  end.

Inductive FieldName : Type :=
| Scalar (k : ScalarKey)
| F_environment | F_bind | F_config | F_permissions | F_layers.

Definition hasKey (f : FieldName) (p : FunctionProps) : bool :=
  match f with
  | Scalar k => isKey (scalar k p)
  | F_environment => isKey (environment p)
  | F_bind => isKey (bind p)
  | F_config => isKey (config p)
  | F_permissions => isKey (permissions p)
  | F_layers => isKey (layers p)
  end.

Definition fieldNames : list FieldName :=
  (Scalar <$> [ K_architecture; K_functionName; K_handler; K_srcPath;
                K_runtime; K_diskSize; K_memorySize; K_timeout; K_tracing;
                K_enableLiveDev; K_bundle; K_url; K_logRetention;
                K_retryAttempts ])
  ++ [ F_environment; F_bind; F_config; F_permissions; F_layers ].

(** [Object.keys(p).length > 0] *)
Definition hasKeys (p : FunctionProps) : bool :=
  existsb (λ f, hasKey f p) fieldNames.

(** A [FunctionDefinition], told apart as [fromDefinition] does: a string,
    an instance of this [Function], an instance of [lambda.Function] that
    is none of this class, or props. *)
Inductive FunctionDefinition : Type :=
| DefinitionString (handler : string)
| DefinitionFunction (fn : FunctionConstruct)
| DefinitionLambdaFunction
| DefinitionProps (props : FunctionProps).

(** The errors of [fromDefinition]: those of the constructor and its own
    three. *)
Inductive definitionError : Type :=
| ConstructionError (e : error)
| ConflictingInheritedProps
| NotAnSstFunction
| InvalidFunctionDefinition.

Definition isInlineDefinition (definition : FunctionDefinition) : bool :=
  match definition with
  | DefinitionString _ | DefinitionFunction _ => true
  | DefinitionLambdaFunction | DefinitionProps _ => false
  end.

(** What [fromDefinition] returns: the function, and whether this call
    has set its [_disableBind]. *)
Record DefinedFunction : Type := {
  defined : FunctionConstruct;
  disabledBind : bool
}.

Section FromDefinition.
Context `{Host}.

(** [new Function(scope, id, props)] followed by [fn._disableBind = true] *)
Definition constructDefined (app : App)
    (defaultFunctionProps : list FunctionProps) (scope : path) (id : string)
    (props : FunctionProps) (t : Tree)
    : definitionError + DefinedFunction * Tree :=
  match construct app defaultFunctionProps scope id props t with
  | Ok (fn, t) => inr ({| defined := fn; disabledBind := true |}, t)
  | Err e => inl (ConstructionError e)
  end.

(** The message [inheritErrorMessage] is left out. *)
Definition fromDefinition (app : App)
    (defaultFunctionProps : list FunctionProps) (scope : path) (id : string)
    (definition : FunctionDefinition) (inheritedProps : option FunctionProps)
    (t : Tree) : definitionError + DefinedFunction * Tree :=
  match definition with
  | DefinitionString handler_ =>
      constructDefined app defaultFunctionProps scope id
        (withHandler handler_ (orEmpty inheritedProps)) t
  | DefinitionFunction fn =>
      match inheritedProps with
      | Some inherited =>
          if hasKeys inherited then inl ConflictingInheritedProps
          else inr ({| defined := fn; disabledBind := false |}, t)
      | None => inr ({| defined := fn; disabledBind := false |}, t)
      end
  | DefinitionLambdaFunction => inl NotAnSstFunction
  | DefinitionProps props =>
      match read (handler props) with
      | Some _ =>
          constructDefined app defaultFunctionProps scope id
            (mergeProps inheritedProps (Some props)) t
      | None => inl InvalidFunctionDefinition
      end
  end.

End FromDefinition.

(** ** Vocabulary of the further statements *)

(** [n] slashes. *)
Fixpoint slashes (n : nat) : string :=
  match n with
  | O => ""
  | S n => String "/" (slashes n)
  end.

(** The character occurs in the string. *)
Fixpoint occurs (c : ascii) (s : string) : bool :=
  match s with
  | EmptyString => false
  | String x rest => bool_decide (x = c) || occurs c rest
  end.

(** The policy statements that [bind] attaches for a construct, one per
    entry of its permissions. *)
Definition statementsOf `{Host} (c : SSTConstruct) : list Permissions :=
  (λ ar, PermList [PermStatement [ar.1] ar.2]) <$> bindPermissions c.

(** The variables written one after the other. *)
Definition writeAll (kvs : list (string * string))
    (env : gmap string string) : gmap string string :=
  foldl (λ env kv, <[kv.1 := kv.2]> env) env kvs.

(** The entries that [copyFiles] takes from a bundle. *)
Definition entriesOf (bundle : option FunctionBundleProp)
    : list FunctionBundleCopyFilesProps :=
  match bundle with
  | Some (BundleObject o) => default [] (bundle_copyFiles o)
  | _ => []
  end.

(** The function with another environment and other grants. *)
Definition rewritten (env : gmap string string) (granted : list Permissions)
    (fn : FunctionConstruct) : FunctionConstruct :=
  {| base := base fn; fn_environment := env; fn_granted := granted;
     functionUrl := functionUrl fn; fn_id := fn_id fn;
     fn_props := fn_props fn; _isLiveDevEnabled := _isLiveDevEnabled fn;
     localId := localId fn; deferredBuild := deferredBuild fn |}.

(** The variables that the constructor writes after [super], in the
    order in which it writes them. *)
Definition constructorWrites `{Host} (app : App) (runtime : string)
    (props : FunctionProps) : list (string * string) :=
  (if startsWith runtime "nodejs"
   then [("AWS_NODEJS_CONNECTION_REUSE_ENABLED", "1")] else [])
  ++ (jobsOf (default (PermList []) (read (permissions props)))
        ≫= bindEnvironment)
  ++ [("SST_APP", name app); ("SST_STAGE", stage app)]
  ++ (if decide (ssmPrefix = "") then []
      else [("SST_SSM_PREFIX", ssmPrefix)])
  ++ (default [] (read (config props)) ≫= bindEnvironment)
  ++ (default [] (read (bind props)) ≫= bindEnvironment).

(** The permissions that the constructor attaches after [super], in the
    order in which it attaches them. *)
Definition constructorGrants `{Host} (props : FunctionProps)
    : list Permissions :=
  default (PermList []) (read (permissions props))
  :: (jobsOf (default (PermList []) (read (permissions props)))
        ≫= statementsOf)
  ++ (default [] (read (config props)) ≫= statementsOf)
  ++ (default [] (read (bind props)) ≫= statementsOf).

(** The variables that [super] receives on top of the environment of the
    props: the three of live development, none otherwise. *)
Definition superWrites (m : DeploymentMode) (srcPath handler localId : string)
    : list (string * string) :=
  match m with
  | LiveDev => [ ("SST_DEBUG_SRC_PATH", srcPath);
                 ("SST_DEBUG_SRC_HANDLER", handler);
                 ("SST_FUNCTION_ID", localId) ]
  | SkipBuild | Build => []
  end.

(** The tree [t'] has every construct of [t] at its place, every
    dependency of [t], and the same stacks. *)
Definition grows (t t' : Tree) : Prop :=
  (∀ place c, constructs t !! place = Some c →
              constructs t' !! place = Some c)
  ∧ dependencies t ⊆ dependencies t'
  ∧ ∀ c, stackOf t' c = stackOf t c.

(** The stack [a] depends on the stack [b], as [addDependency] has
    recorded it. *)
Definition dependency (deps : gset (path * path)) (a b : path) : Prop :=
  (a, b) ∈ deps.

(** The layers that are given by their ARN. *)
Definition arnsOf (ls : list LayerProp) : list string :=
  omap (λ l, match l with
             | LayerArn arn => Some arn
             | LayerVersion _ => None
             end) ls.

(** ** Examples *)

(** The end-to-end merge of the specification:
    [{timeout: 5, environment: {A: "1"}}], then [{timeout: 30}], then the
    explicit [{environment: {B: "2"}}]. *)
Definition exampleDefaults1 : FunctionProps :=
  withTimeout (Num 5) (withEnvironment {[ "A" := "1" ]} emptyProps).

Definition exampleDefaults2 : FunctionProps :=
  withTimeout (Num 30) emptyProps.

Definition exampleExplicit : FunctionProps :=
  withEnvironment {[ "B" := "2" ]} emptyProps.

(** [{timeout: undefined}]: the key is there and holds [undefined]. *)
Definition exampleUndefinedTimeout : FunctionProps :=
  {| architecture := NoKey; functionName := NoKey; handler := NoKey;
     srcPath := NoKey; runtime := NoKey; diskSize := NoKey;
     memorySize := NoKey; timeout := Key None; tracing := NoKey;
     enableLiveDev := NoKey; environment := NoKey; bundle := NoKey;
     bind := NoKey; config := NoKey; permissions := NoKey; url := NoKey;
     layers := NoKey; logRetention := NoKey; retryAttempts := NoKey |}.

(** Permission sets: the wildcard, and two lists that share an entry. *)
Definition exampleWildcard : FunctionProps :=
  withPermissions PermAll emptyProps.

Definition exampleGrants1 : FunctionProps :=
  withPermissions (PermList [PermString "s3"]) emptyProps.

Definition exampleGrants2 : FunctionProps :=
  withPermissions (PermList [PermString "sns"; PermString "s3"]) emptyProps.

(** A file system for the examples: the set of the paths that exist; a
    copy adds its target, and two paths are joined by a slash. *)
#[local] Instance exampleFileSystem : FileSystemOps (gset string) := {|
  existsSync fs p := bool_decide (p ∈ fs);
  copySync _ target fs := {[ target ]} ∪ fs;
  pathJoin a b := a +:+ "/" +:+ b
|}.

Definition exampleFiles : gset string := {[ "src/a.txt"; "src/b.txt" ]}.

Definition copying (entries : list FunctionBundleCopyFilesProps)
    : FunctionBundleObject :=
  {| bundle_copyFiles := Some entries;
     experimentalUseProvidedRuntime := None |}.

Definition entryA : FunctionBundleCopyFilesProps :=
  {| from := "a.txt"; to := None |}.

Definition entryB : FunctionBundleCopyFilesProps :=
  {| from := "b.txt"; to := Some "lib/b.txt" |}.

Definition entryMissing : FunctionBundleCopyFilesProps :=
  {| from := "c.txt"; to := None |}.

Definition entryAbsolute : FunctionBundleCopyFilesProps :=
  {| from := "b.txt"; to := Some "/etc/b.txt" |}.

Definition entryMissingAbsolute : FunctionBundleCopyFilesProps :=
  {| from := "c.txt"; to := Some "/etc/c.txt" |}.

(** Collaborators for the examples.  An address has 42 characters, as
    in cdk: here ["c8"] and the ids of the place, cut or filled up with
    zeros. *)
Fixpoint padded (n : nat) (s : string) : string :=
  match n with
  | O => ""
  | S n =>
      match s with
      | EmptyString => String "0" (padded n "")
      | String c rest => String c (padded n rest)
      end
  end.

#[local] Instance exampleHost : Host := {|
  toCdkSize e := Ok (ToCdkSize e);
  toCdkDuration e := Ok (ToCdkDuration e);
  toMebibytes _ := Ok 0%Z;
  posixJoin a b := a +:+ "/" +:+ b;
  nodeAddr c := "c8" +:+ padded 40 (String.concat "" c);
  callFunctionName _ _ := Ok "named";
  bindEnvironment _ := [];
  bindPermissions _ := [];
  ssmPrefix := "";
  functionError _ := None
|}.

(** An app with two stacks; [StackA] owns two layers, [StackB] holds the
    construct [Api] under which functions are created. *)
Definition exampleLayer : Construct :=
  {| node_path := ["Sharp"; "StackA"];
     payload := IsLayer (ArnRef ["Sharp"; "StackA"]) |}.

Definition exampleLayer2 : Construct :=
  {| node_path := ["Chrome"; "StackA"];
     payload := IsLayer (ArnRef ["Chrome"; "StackA"]) |}.

Definition exampleTree : Tree :=
  {| constructs :=
       list_to_map
         [ ([], {| node_path := []; payload := IsOther |});
           (["StackA"], {| node_path := ["StackA"]; payload := IsStack |});
           (["StackB"], {| node_path := ["StackB"]; payload := IsStack |});
           (node_path exampleLayer, exampleLayer);
           (node_path exampleLayer2, exampleLayer2);
           (["Api"; "StackB"],
            {| node_path := ["Api"; "StackB"]; payload := IsOther |}) ];
     dependencies := ∅ |}.

(** Apps and props for the constructor. *)
Definition exampleApp : App :=
  {| mode := "deploy"; debugIncreaseTimeout := false; skipBuild := false;
     name := "demo"; stage := "dev"; appPath := "/app" |}.

Definition exampleStartApp : App :=
  {| mode := "start"; debugIncreaseTimeout := true; skipBuild := false;
     name := "demo"; stage := "dev"; appPath := "/app" |}.

(** [{handler: "src/api.handler", runtime: "python3.9", srcPath: "."}] *)
Definition examplePythonAtRoot : FunctionProps :=
  withHandler "src/api.handler"
    (withRuntime "python3.9" (withSrcPath "." emptyProps)).

(** [{runtime: "python3.9", srcPath: "."}] *)
Definition examplePythonNoHandler : FunctionProps :=
  withRuntime "python3.9" (withSrcPath "." emptyProps).

(** [{runtime: "ruby2.7"}] *)
Definition exampleRubyNoHandler : FunctionProps :=
  withRuntime "ruby2.7" emptyProps.

(** [{runtime: "ruby2.7", timeout: -5}] *)
Definition exampleRubyNegativeTimeout : FunctionProps :=
  withTimeout (Num (-5)) exampleRubyNoHandler.

(** [{handler: "src/api.handler", bundle: false}] *)
Definition exampleNodeUnbundled : FunctionProps :=
  withHandler "src/api.handler" (withBundle (BundleBool false) emptyProps).

(** [{handler: "src/api.handler", srcPath: "services",
      environment: {SST_APP: "mine"}}] *)
Definition exampleReserved : FunctionProps :=
  withHandler "src/api.handler"
    (withSrcPath "services"
       (withEnvironment {[ "SST_APP" := "mine" ]} emptyProps)).

(** [{handler: "src/api.handler", runtime: "python3.9",
      srcPath: "services", retryAttempts: 2}] *)
Definition exampleLive : FunctionProps :=
  withHandler "src/api.handler"
    (withRuntime "python3.9"
       (withSrcPath "services" (withRetryAttempts 2 emptyProps))).

(** [{handler: "src/api.handler", layers: [arn, sharp]}], the first
    layer by its ARN and the second the layer [Sharp] of [StackA]. *)
Definition exampleLayered : FunctionProps :=
  {| architecture := NoKey; functionName := NoKey;
     handler := #"src/api.handler";
     srcPath := NoKey; runtime := NoKey; diskSize := NoKey;
     memorySize := NoKey; timeout := NoKey; tracing := NoKey;
     enableLiveDev := NoKey; environment := NoKey; bundle := NoKey;
     bind := NoKey; config := NoKey; permissions := NoKey; url := NoKey;
     layers := Key (Some [LayerArn "arn:aws:lambda:us-east-1:1:layer:ffmpeg:1";
                          LayerVersion exampleLayer]);
     logRetention := NoKey; retryAttempts := NoKey |}.

(** * Properties *)

(** ** Merging one field *)

Lemma spread_assoc {A} (a b c : own A) :
  spread a (spread b c) = spread (spread a b) c.
Proof. by destruct c. Qed.

Lemma spread_cases {A} (a b : own A) : spread a b = a ∨ spread a b = b.
Proof. destruct b; auto. Qed.

Section MergedField.
Context `{HM : FieldMonoid A M eff op write neutral}.

#[local] Abbreviation mergedField' := (mergedField eff op write).

Lemma eff_mergedField x y : eff (mergedField' x y) = op (eff x) (eff y).
Proof.
  destruct HM as [op_assoc op_unit unit_dec write_unit write_other].
  unfold mergedField.
  destruct (unit_dec (op (eff x) (eff y))) as [E | E].
  - rewrite E, write_unit. simpl.
    destruct (op_unit _ _ E) as [Ex Ey].
    destruct (spread_cases x y) as [-> | ->]; congruence.
  - destruct (write_other _ E) as [N W].
    destruct (write (op (eff x) (eff y))); [done | exact W].
Qed.

Lemma mergedField_assoc x y z :
  mergedField' x (mergedField' y z) = mergedField' (mergedField' x y) z.
Proof.
  unfold mergedField at 1 3. rewrite !eff_mergedField.
  destruct HM as [op_assoc op_unit unit_dec write_unit write_other].
  rewrite op_assoc.
  destruct (unit_dec (op (op (eff x) (eff y)) (eff z))) as [E | E].
  - rewrite E, write_unit. simpl.
    destruct (op_unit _ _ E) as [Exy Ez].
    destruct (op_unit _ _ Exy) as [Ex Ey].
    unfold mergedField. rewrite Ex, Ey, Ez.
    assert (U : op neutral neutral = neutral)
      by (rewrite <- Ex at 1; by rewrite <- Ey at 1).
    rewrite U, write_unit. simpl. apply spread_assoc.
  - destruct (write_other _ E) as [N _].
    by destruct (write (op (op (eff x) (eff y)) (eff z))).
Qed.

End MergedField.

#[local] Instance environment_monoid :
  FieldMonoid effEnv spreadMap environmentProp ∅.
Proof.
  split; unfold spreadMap, environmentProp.
  - intros l m n. by rewrite (assoc_L (∪)).
  - intros m n E. pose proof (map_positive_l _ _ E) as ->.
    by rewrite (left_id_L ∅ (∪)) in E.
  - intros m. destruct (decide (m = ∅)); auto.
  - by rewrite decide_True.
  - intros m Hm. by rewrite decide_False.
Qed.

#[local] Instance list_monoid {A} :
  FieldMonoid (@effList A) app listProp [].
Proof.
  split.
  - intros l m n. apply (assoc_L (++)).
  - intros m n E. by apply app_eq_nil in E.
  - intros [|a m]; auto.
  - reflexivity.
  - by intros [|a m] Hm.
Qed.

#[local] Instance permissions_monoid :
  FieldMonoid permissionSet joinPermissionSets writePermissionSet (Some []).
Proof.
  split.
  - intros [l|] [m|] [n|]; simpl; try reflexivity.
    by rewrite (assoc_L (++)).
  - intros [m|] [n|] E; simpl in E; try discriminate.
    injection E as E. apply app_eq_nil in E as [-> ->]. done.
  - intros [[|a m]|]; auto.
  - reflexivity.
  - by intros [[|a m]|] Hm.
Qed.

(** ** [mergeProps], field by field *)

Lemma mergeProps_scalar (k : ScalarKey) (a b : option FunctionProps) :
  scalar k (mergeProps a b)
  = spread (scalar k (orEmpty a)) (scalar k (orEmpty b)).
Proof. by destruct k. Qed.

Lemma mergeProps_environment (a b : option FunctionProps) :
  environment (mergeProps a b)
  = mergedField effEnv spreadMap environmentProp
      (environment (orEmpty a)) (environment (orEmpty b)).
Proof. reflexivity. Qed.

Lemma mergeProps_layers (a b : option FunctionProps) :
  layers (mergeProps a b)
  = mergedField effList app listProp (layers (orEmpty a)) (layers (orEmpty b)).
Proof. reflexivity. Qed.

Lemma mergeProps_config (a b : option FunctionProps) :
  config (mergeProps a b)
  = mergedField effList app listProp (config (orEmpty a)) (config (orEmpty b)).
Proof. reflexivity. Qed.

Lemma mergeProps_bind (a b : option FunctionProps) :
  bind (mergeProps a b)
  = mergedField effList app listProp (bind (orEmpty a)) (bind (orEmpty b)).
Proof. reflexivity. Qed.

Lemma permissions_of_mergeProps (a b : option FunctionProps) :
  permissions (mergeProps a b)
  = mergedField permissionSet joinPermissionSets writePermissionSet
      (permissions (orEmpty a)) (permissions (orEmpty b)).
Proof.
  unfold mergeProps, mergedField, permissionsProp, isWildcard,
    permissionEntries, permissionSet. simpl.
  destruct (read (permissions (orEmpty a))) as [[|l1]|];
    destruct (read (permissions (orEmpty b))) as [[|l2]|];
    simpl; rewrite ?app_nil_r; try reflexivity.
  all: try (destruct l1; reflexivity); try (destruct l2; reflexivity).
  by destruct (l1 ++ l2).
Qed.

Lemma orEmpty_Some (p : FunctionProps) : orEmpty (Some p) = p.
Proof. reflexivity. Qed.

(** Two props objects with the same fields are the same. *)
Lemma FunctionProps_eq (p q : FunctionProps) :
  (∀ k, scalar k p = scalar k q) →
  environment p = environment q → bind p = bind q → config p = config q →
  permissions p = permissions q → layers p = layers q →
  p = q.
Proof.
  intros Hs He Hb Hc Hp Hl. destruct p, q; simpl in *.
  pose proof (Hs K_architecture). pose proof (Hs K_functionName).
  pose proof (Hs K_handler). pose proof (Hs K_srcPath).
  pose proof (Hs K_runtime). pose proof (Hs K_diskSize).
  pose proof (Hs K_memorySize). pose proof (Hs K_timeout).
  pose proof (Hs K_tracing). pose proof (Hs K_enableLiveDev).
  pose proof (Hs K_bundle). pose proof (Hs K_url).
  pose proof (Hs K_logRetention). pose proof (Hs K_retryAttempts).
  simpl in *. clear Hs. by subst.
Qed.

Lemma merge_assoc (a b c : FunctionProps) :
  merge a (merge b c) = merge (merge a b) c.
Proof.
  unfold merge. apply FunctionProps_eq.
  - intros k. rewrite 2!mergeProps_scalar. rewrite !orEmpty_Some.
    rewrite 2!mergeProps_scalar. apply spread_assoc.
  - rewrite 2!mergeProps_environment. rewrite !orEmpty_Some.
    rewrite 2!mergeProps_environment. apply mergedField_assoc.
  - rewrite 2!mergeProps_bind. rewrite !orEmpty_Some.
    rewrite 2!mergeProps_bind. apply mergedField_assoc.
  - rewrite 2!mergeProps_config. rewrite !orEmpty_Some.
    rewrite 2!mergeProps_config. apply mergedField_assoc.
  - rewrite 2!permissions_of_mergeProps. rewrite !orEmpty_Some.
    rewrite 2!permissions_of_mergeProps. apply mergedField_assoc.
  - rewrite 2!mergeProps_layers. rewrite !orEmpty_Some.
    rewrite 2!mergeProps_layers. apply mergedField_assoc.
Qed.

(** The constructor folds from the most specific fragment outwards. *)
Lemma applyDefaults_foldr (chain : list FunctionProps) (p : FunctionProps) :
  applyDefaults chain p = foldr merge p chain.
Proof.
  unfold applyDefaults. induction chain as [|d ds IH]; [done |].
  rewrite reverse_cons, foldl_app. simpl. by rewrite IH.
Qed.

Lemma merge_foldr_foldl (d : FunctionProps) (ds : list FunctionProps)
    (p : FunctionProps) :
  merge d (foldr merge p ds) = merge (foldl merge d ds) p.
Proof.
  revert d. induction ds as [|e ds IH]; intros d; simpl; [done |].
  by rewrite merge_assoc, IH.
Qed.

Lemma mostSpecific_snoc {A} (get : FunctionProps → own A)
    (l : list FunctionProps) (d : FunctionProps) :
  mostSpecific get (l ++ [d]) = spread (get d) (mostSpecific get l).
Proof.
  induction l as [|f l IH]; simpl.
  - by destruct (get d).
  - destruct (get f); [exact IH | done].
Qed.

Lemma foldr_merge_scalar (k : ScalarKey) (chain : list FunctionProps)
    (p : FunctionProps) :
  scalar k (foldr merge p chain) = mostSpecific (scalar k) (p :: reverse chain).
Proof.
  induction chain as [|d ds IH].
  - simpl. by destruct (scalar k p).
  - rewrite reverse_cons, app_comm_cons, mostSpecific_snoc, <- IH.
    cbn [foldr]. unfold merge at 1. by rewrite mergeProps_scalar.
Qed.

(** ** The defaults chain *)

(** Where no fragment has the key holding [undefined], the fragment that
    has the key is the fragment that defines a value. *)
Lemma mostSpecific_defined {A} (get : FunctionProps → own A)
    (fragments : list FunctionProps) :
  (∀ f, f ∈ fragments → get f ≠ Key None) →
  read (mostSpecific get fragments) = mostSpecificDefined get fragments.
Proof.
  induction fragments as [|f rest IH]; intros Hdef; [done |]. simpl.
  destruct (get f) as [|[v|]] eqn:E; simpl.
  - apply IH. intros g Hg. apply Hdef. by right.
  - done.
  - exfalso. apply (Hdef f); [by left | done].
Qed.

(** C1, as amended. For every defaults chain and explicit props, what the
    constructor computes (the chain reversed, each fragment merged under
    the props accumulated so far) is the left-to-right fold of the
    specification, [merge(merge(...merge(d1,d2)...,dn), p)]; and every
    scalar field of the result is that field of the most specific fragment
    that has the key as a key of its own, also when it holds [undefined]:
    [p] first, then [dn], down to [d1].  It is the value of the most
    specific fragment that defines one where no fragment has the key
    holding [undefined]. *)
Theorem applyDefaults_specMerge (chain : list FunctionProps)
    (p : FunctionProps) :
  applyDefaults chain p = specMerge chain p
  ∧ (∀ k : ScalarKey,
       scalar k (applyDefaults chain p)
       = mostSpecific (scalar k) (p :: reverse chain))
  ∧ (∀ k : ScalarKey,
       (∀ f, f ∈ p :: chain → scalar k f ≠ Key None) →
       read (scalar k (applyDefaults chain p))
       = mostSpecificDefined (scalar k) (p :: reverse chain)).
Proof.
  rewrite applyDefaults_foldr. split; [| split].
  - destruct chain as [|d ds]; [done |]. simpl. apply merge_foldr_foldl.
  - intros k. apply foldr_merge_scalar.
  - intros k Hdef. rewrite foldr_merge_scalar.
    apply mostSpecific_defined. intros f Hf. apply Hdef.
    apply elem_of_cons in Hf as [-> | Hf]; [by left | right].
    by apply elem_of_reverse.
Qed.

(** C1 as stated fails: a key that holds [undefined] is a key, the spread
    copies it.  Over the defaults [{timeout: 5, ...}] the explicit props
    [{timeout: undefined}] give a timeout that is [undefined], which is
    normalized to the 10 seconds of the default, and not the 5 of the most
    specific fragment that defines a timeout. *)
Lemma applyDefaults_undefined_key :
  timeout (applyDefaults [exampleDefaults1] exampleUndefinedTimeout)
  = Key None
  ∧ mostSpecificDefined timeout
      (exampleUndefinedTimeout :: reverse [exampleDefaults1])
    = Some (Num 5)
  ∧ normalizeTimeout
      (read (timeout (applyDefaults [exampleDefaults1]
                                    exampleUndefinedTimeout)))
    = Ok (DurationSeconds 10).
Proof. repeat split. Qed.

(** ** Environment, lists and permissions under [mergeProps] *)

Lemma environmentOf_mergeProps (a b : option FunctionProps) :
  environmentOf (Some (mergeProps a b)) = environmentOf b ∪ environmentOf a.
Proof.
  unfold environmentOf. rewrite orEmpty_Some, mergeProps_environment.
  exact (eff_mergedField (eff := effEnv) (op := spreadMap) _ _).
Qed.

Lemma listOf_mergeProps {A} (get : FunctionProps → own (list A))
    (a b : option FunctionProps) :
  get (mergeProps a b)
  = mergedField effList app listProp (get (orEmpty a)) (get (orEmpty b)) →
  listOf get (Some (mergeProps a b)) = listOf get a ++ listOf get b.
Proof.
  intros E. unfold listOf. rewrite orEmpty_Some, E.
  exact (eff_mergedField (eff := effList) (op := app) _ _).
Qed.

(** C6. For every base and override, the environment of [mergeProps] is
    the shallow union of the two environments in which the override's
    value wins on every shared key, and its layers, config and bind lists
    are base's entries followed by override's; the defaults
    [{timeout: 5, environment: {A: "1"}}] then [{timeout: 30}] under the
    explicit [{environment: {B: "2"}}] give timeout 30 and the
    environment [{A: "1", B: "2"}]. *)
Theorem mergeProps_environment_lists (baseProps props : option FunctionProps) :
  let merged := Some (mergeProps baseProps props) in
  (∀ key : string,
     environmentOf merged !! key
     = match environmentOf props !! key with
       | Some v => Some v
       | None => environmentOf baseProps !! key
       end)
  ∧ listOf layers merged = listOf layers baseProps ++ listOf layers props
  ∧ listOf config merged = listOf config baseProps ++ listOf config props
  ∧ listOf bind merged = listOf bind baseProps ++ listOf bind props
  ∧ (let r := applyDefaults [exampleDefaults1; exampleDefaults2]
                            exampleExplicit in
     read (timeout r) = Some (Num 30)
     ∧ read (environment r) = Some {[ "A" := "1"; "B" := "2" ]}).
Proof.
  cbv zeta. split; [| split; [| split; [| split]]].
  - intros key. rewrite environmentOf_mergeProps, lookup_union.
    by destruct (environmentOf props !! key),
                (environmentOf baseProps !! key).
  - apply listOf_mergeProps, mergeProps_layers.
  - apply listOf_mergeProps, mergeProps_config.
  - apply listOf_mergeProps, mergeProps_bind.
  - split; vm_compute; reflexivity.
Qed.

(** C2. For every base and override, [mergeProps] yields the wildcard
    ["*"] whenever the permissions of either input are ["*"]; when neither
    is, its permissions are not the wildcard and its entries are exactly
    base's entries followed by override's, none dropped, none
    deduplicated. *)
Theorem mergeProps_permissions (baseProps props : FunctionProps) :
  let merged := mergeProps (Some baseProps) (Some props) in
  (isWildcard (Some baseProps) || isWildcard (Some props) = true →
   permissions merged = #PermAll)
  ∧ (isWildcard (Some baseProps) = false → isWildcard (Some props) = false →
     isWildcard (Some merged) = false
     ∧ permissionEntries (Some merged)
       = permissionEntries (Some baseProps) ++ permissionEntries (Some props)).
Proof.
  cbv zeta. unfold isWildcard, permissionEntries.
  rewrite !orEmpty_Some, permissions_of_mergeProps, !orEmpty_Some.
  unfold mergedField, permissionSet.
  destruct (read (permissions baseProps)) as [[|l1]|] eqn:Eb;
    destruct (read (permissions props)) as [[|l2]|] eqn:Ep;
    simpl; (split; [intros W | intros W1 W2]); try discriminate;
    try reflexivity.
  - destruct (l1 ++ l2) eqn:E; simpl.
    + apply app_eq_nil in E as [-> ->].
      destruct (permissions props) as [|[[|?]|]]; simpl in *;
        by simplify_eq.
    + done.
  - rewrite app_nil_r. destruct l1; simpl.
    + destruct (permissions props) as [|[[|?]|]],
               (permissions baseProps) as [|[[|?]|]]; simpl in *;
        by simplify_eq.
    + done.
  - destruct l2; simpl.
    + destruct (permissions props) as [|[[|?]|]]; simpl in *; by simplify_eq.
    + done.
  - destruct (permissions props) as [|[[|?]|]],
             (permissions baseProps) as [|[[|?]|]]; simpl in *;
      by simplify_eq.
Qed.

Lemma mergeProps_permissions_witness :
  permissions (mergeProps (Some exampleWildcard) (Some exampleGrants1))
  = #PermAll
  ∧ permissionEntries (Some (mergeProps (Some exampleGrants1)
                                        (Some exampleGrants2)))
    = [PermString "s3"; PermString "sns"; PermString "s3"].
Proof.
  split.
  - apply (proj1 (mergeProps_permissions exampleWildcard exampleGrants1)).
    reflexivity.
  - apply (proj2 (mergeProps_permissions exampleGrants1 exampleGrants2));
      reflexivity.
Defined.

(** ** The normalizers *)

Lemma supportedRuntimes_nonempty (r : string) :
  r ∈ supportedRuntimes → r ≠ "".
Proof.
  intros Hin ->. revert Hin. apply (bool_decide_eq_false_1 _). reflexivity.
Qed.

(** A name inherited from [Object.prototype] passes the lookup. *)
Lemma normalizeRuntime_inherited_key :
("toString" ∉ supportedRuntimes)
  ∧ normalizeRuntime (Some "toString") = Ok "toString".
Proof.
  split; [| reflexivity]. apply (bool_decide_eq_false_1 _). reflexivity.
Qed.

(** C7, as amended. [normalizeRuntime(undefined)], and likewise
    [normalizeRuntime("")], returns ["nodejs14.x"]; every non-empty
    identifier outside the supported set, other than the names inherited
    from [Object.prototype], fails with [UnsupportedRuntime]; every
    identifier of the supported set is returned unchanged. *)
Theorem normalizeRuntime_spec :
  normalizeRuntime None = Ok "nodejs14.x"
  ∧ normalizeRuntime (Some "") = Ok "nodejs14.x"
  ∧ (∀ r : string,
       r ≠ "" → r ∉ supportedRuntimes → r ∉ objectPrototypeKeys →
       normalizeRuntime (Some r) = Err UnsupportedRuntime)
  ∧ (∀ r : string, r ∈ supportedRuntimes → normalizeRuntime (Some r) = Ok r).
Proof.
  split; [reflexivity |]. split; [reflexivity |]. split.
  - intros r Hne Hs Hp. unfold normalizeRuntime, stringOr.
    rewrite decide_False by done. unfold lookupSupportedRuntime.
    by rewrite !bool_decide_eq_false_2.
  - intros r Hs. unfold normalizeRuntime, stringOr.
    rewrite decide_False by by apply supportedRuntimes_nonempty.
    unfold lookupSupportedRuntime. by rewrite bool_decide_eq_true_2.
Qed.

Lemma normalizeRuntime_spec_witness :
  normalizeRuntime (Some "ruby2.7") = Err UnsupportedRuntime
  ∧ normalizeRuntime (Some "python3.9") = Ok "python3.9".
Proof.
  split.
  - apply (proj1 (proj2 (proj2 normalizeRuntime_spec)) "ruby2.7").
    + discriminate.
    + apply (bool_decide_eq_false_1 _). reflexivity.
    + apply (bool_decide_eq_false_1 _). reflexivity.
  - apply (proj2 (proj2 (proj2 normalizeRuntime_spec)) "python3.9").
    apply (bool_decide_eq_true_1 _). reflexivity.
Defined.

(** C7 as stated fails: the empty string is outside the supported set and
    [normalizeRuntime] answers it with the default. *)
Lemma normalizeRuntime_empty_not_rejected :
("" ∉ supportedRuntimes)
  ∧ normalizeRuntime (Some "") = Ok "nodejs14.x"
  ∧ normalizeRuntime (Some "") ≠ Err UnsupportedRuntime.
Proof.
  split; [| split; [reflexivity | discriminate]].
  apply (bool_decide_eq_false_1 _). reflexivity.
Qed.

(** C10. Each size or duration normalizer maps the number 0 to its
    default, as it maps a missing value: [normalizeTimeout(0)] is 10
    seconds, [normalizeMemorySize(0)] is 1024 MB and
    [normalizeDiskSize(0)] is 512 MB. *)
Theorem normalizers_zero `{Host} :
  (normalizeTimeout (Some (Num 0)) = Ok (DurationSeconds 10)
   ∧ normalizeTimeout (Some (Num 0)) = normalizeTimeout None)
  ∧ (normalizeMemorySize (Some (Num 0)) = Ok 1024%Z
     ∧ normalizeMemorySize (Some (Num 0)) = normalizeMemorySize None)
  ∧ (normalizeDiskSize (Some (Num 0)) = Ok (SizeMebibytes 512)
     ∧ normalizeDiskSize (Some (Num 0)) = normalizeDiskSize None).
Proof. repeat split. Qed.

(** ** [copyFiles] *)

Section CopyFilesProperties.
Context `{FileSystemOps FileSystem}.

Lemma copyEntries_app (srcPath buildPath : string)
    (pre post : list FunctionBundleCopyFilesProps) (fs : FileSystem) :
  copyEntries srcPath buildPath (pre ++ post) fs
  = (fs' ← copyEntries srcPath buildPath pre fs;
     copyEntries srcPath buildPath post fs').
Proof.
  revert fs. induction pre as [|e pre IH]; intros fs; simpl; [done |].
  destruct (copyEntry srcPath buildPath e fs); simpl; [apply IH | done].
Qed.

Lemma copyEntry_pass (srcPath buildPath : string)
    (e : FunctionBundleCopyFilesProps) (fs : FileSystem) :
  existsSync fs (pathJoin srcPath (from e)) = true →
  isAbsolute (destination e) = false →
  copyEntry srcPath buildPath e fs = Ok (copyOf srcPath buildPath e fs).
Proof.
  intros He Ha. unfold copyEntry, copyOf, destination in *.
  by rewrite He, Ha.
Qed.

Lemma copyEntries_allPass (srcPath buildPath : string)
    (entries : list FunctionBundleCopyFilesProps) (fs : FileSystem) :
  allPass srcPath buildPath entries fs →
  copyEntries srcPath buildPath entries fs
  = Ok (copyAll srcPath buildPath entries fs).
Proof.
  revert fs. induction entries as [|e es IH]; intros fs; simpl; [done |].
  intros (He & Ha & Hes). rewrite copyEntry_pass by done. simpl.
  by apply IH.
Qed.

(** C8, as amended. [copyFiles] takes the entries in order and stops at
    the first one that fails a check: when the entries before it pass and
    its source does not exist it fails with [MissingCopySource]; when its
    source exists and its destination ([to], or [from] without a [to]) is
    absolute it fails with [InvalidCopyDestination]; and when every entry
    passes both checks, all of them are copied into the build directory. *)
Theorem copyFiles_checks (o : FunctionBundleObject)
    (entries : list FunctionBundleCopyFilesProps)
    (srcPath buildPath : string) (fs : FileSystem) :
  bundle_copyFiles o = Some entries →
  (∀ pre e post,
     entries = pre ++ e :: post →
     allPass srcPath buildPath pre fs →
     let fs' := copyAll srcPath buildPath pre fs in
     (existsSync fs' (pathJoin srcPath (from e)) = false →
      copyFiles (Some (BundleObject o)) srcPath buildPath fs
      = Err MissingCopySource)
     ∧ (existsSync fs' (pathJoin srcPath (from e)) = true →
        isAbsolute (destination e) = true →
        copyFiles (Some (BundleObject o)) srcPath buildPath fs
        = Err InvalidCopyDestination))
  ∧ (allPass srcPath buildPath entries fs →
     copyFiles (Some (BundleObject o)) srcPath buildPath fs
     = Ok (copyAll srcPath buildPath entries fs)).
Proof.
  intros Ho. unfold copyFiles. rewrite Ho. split.
  - intros pre e post -> Hpre. cbv zeta.
    rewrite copyEntries_app, (copyEntries_allPass _ _ pre) by done. simpl.
    unfold copyEntry, destination. split.
    + by intros ->.
    + by intros -> ->.
  - apply copyEntries_allPass.
Qed.

End CopyFilesProperties.

Lemma copyFiles_checks_witness :
  copyFiles (Some (BundleObject (copying [entryA; entryMissing])))
            "src" "build" exampleFiles
  = Err MissingCopySource
  ∧ copyFiles (Some (BundleObject (copying [entryAbsolute])))
              "src" "build" exampleFiles
    = Err InvalidCopyDestination
  ∧ copyFiles (Some (BundleObject (copying [entryA; entryB])))
              "src" "build" exampleFiles
    = Ok ({[ "build/lib/b.txt" ]} ∪ ({[ "build/a.txt" ]} ∪ exampleFiles)).
Proof.
  split; [| split].
  - refine (proj1 (proj1 (copyFiles_checks (copying [entryA; entryMissing])
                            _ "src" "build" exampleFiles eq_refl)
                     [entryA] entryMissing [] eq_refl _) _).
    + simpl. repeat split; vm_compute; reflexivity.
    + vm_compute. reflexivity.
  - refine (proj2 (proj1 (copyFiles_checks (copying [entryAbsolute])
                            _ "src" "build" exampleFiles eq_refl)
                     [] entryAbsolute [] eq_refl _) _ _).
    + exact I.
    + vm_compute. reflexivity.
    + vm_compute. reflexivity.
  - refine (proj2 (copyFiles_checks (copying [entryA; entryB])
                     _ "src" "build" exampleFiles eq_refl) _).
    simpl. repeat split; vm_compute; reflexivity.
Defined.

(** C8 as stated fails: an entry whose [to] is absolute and whose source
    is missing is answered with [MissingCopySource], the first check. *)
Lemma copyFiles_absolute_to_missing_source :
  to entryMissingAbsolute = Some "/etc/c.txt"
  ∧ isAbsolute "/etc/c.txt" = true
  ∧ copyFiles (Some (BundleObject (copying [entryMissingAbsolute])))
              "src" "build" exampleFiles
    = Err MissingCopySource
  ∧ copyFiles (Some (BundleObject (copying [entryMissingAbsolute])))
              "src" "build" exampleFiles
    ≠ Err InvalidCopyDestination.
Proof.
  split; [reflexivity |]. split; [reflexivity |].
  split; [vm_compute; reflexivity |]. vm_compute. discriminate.
Qed.

(** ** The layer resolver *)

Lemma bind_Ok {A B} (a : A) (k : A → result B) : (Ok a ≫= k) = k a.
Proof. reflexivity. Qed.

Lemma append_length (s t : string) :
  String.length (s +:+ t) = String.length s + String.length t.
Proof. induction s as [|c s IH]; simpl; [done | by rewrite IH]. Qed.

Lemma append_assoc (a b c : string) : (a +:+ b) +:+ c = a +:+ (b +:+ c).
Proof.
  induction a as [|x a IH]; [done |].
  change (String x ((a +:+ b) +:+ c) = String x (a +:+ b +:+ c)).
  by rewrite IH.
Qed.

(** Two strings with equal ends of one length: the ends are the same. *)
Lemma append_suffix_inj (s1 s2 a1 a2 : string) :
  String.length a1 = String.length a2 →
  s1 +:+ a1 = s2 +:+ a2 → a1 = a2.
Proof.
  intros Hlen. revert s2.
  induction s1 as [|c s1 IH]; intros [|d s2] E.
  - exact E.
  - apply (f_equal String.length) in E.
    rewrite !append_length in E. simpl in E. lia.
  - apply (f_equal String.length) in E.
    rewrite !append_length in E. simpl in E. lia.
  - change (String c (s1 +:+ a1) = String d (s2 +:+ a2)) in E.
    injection E as _ E. by apply (IH s2).
Qed.

Section LayerProperties.
Context `{Host}.

Lemma parameterId_ends (layer : Construct) :
  ∃ s, parameterId layer = s +:+ nodeAddr (node_path layer).
Proof.
  exists (nodeId (node_path layer) +:+ "Arn-"). unfold parameterId.
  by rewrite append_assoc.
Qed.

Lemma parameterName_ends (layerStack : path) (layer : Construct) :
  ∃ s, parameterName layerStack layer = s +:+ nodeAddr (node_path layer).
Proof.
  destruct (parameterId_ends layer) as [s Es].
  exists ("/layers/" +:+ nodeId layerStack +:+ "/" +:+ s).
  unfold parameterName. rewrite Es. by rewrite !append_assoc.
Qed.

(** *** Ids as cdk keeps them *)

Lemma sanitizeId_cons (c : ascii) (s : string) :
  sanitizeId (String c s)
  = if decide (c = "/"%char) then "--" +:+ sanitizeId s
    else String c (sanitizeId s).
Proof. reflexivity. Qed.

Lemma sanitizeId_app (a b : string) :
  sanitizeId (a +:+ b) = sanitizeId a +:+ sanitizeId b.
Proof.
  induction a as [|c a IH]; [done |].
  change (String c a +:+ b) with (String c (a +:+ b)).
  rewrite !sanitizeId_cons, IH. destruct (decide (c = "/"%char)); [| done].
  by rewrite append_assoc.
Qed.

Lemma sanitizeId_plain (s : string) :
  occurs "/" s = false → sanitizeId s = s.
Proof.
  induction s as [|c s IH]; [done |]. cbn [occurs].
  intros [Hc Hs]%orb_false_iff. apply bool_decide_eq_false in Hc.
  rewrite sanitizeId_cons, decide_False by done. by rewrite IH.
Qed.

Lemma parameterId_nonempty (layer : Construct) : parameterId layer ≠ "".
Proof.
  unfold parameterId. intros E. apply (f_equal String.length) in E.
  rewrite !append_length in E. simpl in E. lia.
Qed.

Lemma layerId_nonempty (layer : Construct) : layerId layer ≠ "".
Proof. unfold layerId. intros E. discriminate E. Qed.

(** The parameter and the import have two ids, also where their scopes
    are one. *)
Lemma parameterId_ne_layerId (layer : Construct) :
  sanitizeId (parameterId layer) ≠ sanitizeId (layerId layer).
Proof.
  unfold parameterId, layerId. intros E.
  apply (f_equal String.length) in E.
  rewrite !sanitizeId_app, !append_length in E.
  change (sanitizeId "Arn-") with "Arn-" in E.
  change (sanitizeId "I") with "I" in E.
  change (sanitizeId "-") with "-" in E.
  simpl in E. lia.
Qed.

(** *** The tree under [new] *)

(** [Stack.of] reads the constructs only. *)
Lemma stackOf_constructs (t t' : Tree) (p : path) :
  constructs t' = constructs t → stackOf t' p = stackOf t p.
Proof.
  intros E. induction p as [|x p IH]; simpl; rewrite E; [done |].
  by rewrite IH.
Qed.

(** New constructs are no stacks: [Stack.of] answers as before. *)
Lemma stackOf_insert (t : Tree) (place : path) (c : Construct)
    (deps : gset (path * path)) (p : path) :
  constructs t !! place = None → payload c ≠ IsStack →
  stackOf {| constructs := <[place := c]> (constructs t);
             dependencies := deps |} p
  = stackOf t p.
Proof.
  intros Hfree Hc. induction p as [|x p IH]; simpl.
  - destruct (decide (place = [])) as [-> | Hne].
    + rewrite lookup_insert_eq, Hfree. by destruct c as [? []].
    + by rewrite lookup_insert_ne.
  - destruct (decide (place = x :: p)) as [-> | Hne].
    + rewrite lookup_insert_eq, Hfree, IH. by destruct c as [? []].
    + by rewrite lookup_insert_ne, IH.
Qed.

Lemma grows_refl (t : Tree) : grows t t.
Proof. by repeat split. Qed.

Lemma grows_trans (t1 t2 t3 : Tree) : grows t1 t2 → grows t2 t3 → grows t1 t3.
Proof.
  intros (C1 & D1 & S1) (C2 & D2 & S2). repeat split.
  - auto.
  - set_solver.
  - intros c. by rewrite S2.
Qed.

Lemma grows_absent (t t' : Tree) (s : path) (i : string) :
  grows t t' → tryFindChild s i t' = None → tryFindChild s i t = None.
Proof.
  intros (G & _) Hn. unfold tryFindChild in *.
  destruct (constructs t !! (sanitizeId i :: s)) as [c|] eqn:E; [| done].
  apply G in E. discriminate (eq_trans (eq_sym E) Hn).
Qed.

(** A [new C(scope, id, ...)] that returns, taken apart. *)
Lemma grows_newConstruct (scope : path) (id : string) (p : Payload)
    (t t' : Tree) (c : Construct) :
  p ≠ IsStack → newConstruct scope id p t = Ok (c, t') →
  grows t t'
  ∧ c = {| node_path := sanitizeId id :: scope; payload := p |}
  ∧ tryFindChild scope id t = None
  ∧ tryFindChild scope id t' = Some c
  ∧ dependencies t' = dependencies t.
Proof.
  intros Hp. unfold newConstruct.
  destruct (decide (id = "")); [done |].
  destruct (tryFindChild scope id t) eqn:Hfree; [done |].
  intros [= <- <-]. unfold tryFindChild in *. simpl.
  split; [| by rewrite lookup_insert_eq]. repeat split; simpl.
  - intros place c' Hc. rewrite lookup_insert_ne; [done |].
    intros <-. discriminate (eq_trans (eq_sym Hc) Hfree).
  - done.
  - intros q. by apply stackOf_insert.
Qed.

(** It returns for an id that is not empty and that the scope has not. *)
Lemma newConstruct_fresh (scope : path) (id : string) (p : Payload)
    (t : Tree) :
  id ≠ "" → tryFindChild scope id t = None →
  ∃ c t', newConstruct scope id p t = Ok (c, t').
Proof.
  intros Hid Hfree. unfold newConstruct.
  rewrite decide_False, Hfree by done. by eexists _, _.
Qed.

Lemma newConstruct_elsewhere (scope s : path) (id i : string) (p : Payload)
    (t t' : Tree) (c : Construct) :
  newConstruct scope id p t = Ok (c, t') → sanitizeId i ≠ sanitizeId id →
  tryFindChild s i t' = tryFindChild s i t.
Proof.
  unfold newConstruct. destruct (decide (id = "")); [done |].
  destruct (tryFindChild scope id t); [done |].
  intros [= <- <-] Hne. unfold tryFindChild. simpl.
  apply lookup_insert_ne. congruence.
Qed.

(** *** Dependencies between stacks *)

Lemma rtc_first_arrival {A} `{EqDecision A} (R : relation A) (x b : A) :
  rtc R x b → rtc (λ y z, R y z ∧ y ≠ b) x b.
Proof.
  induction 1 as [x | x y b Hxy _ IH]; [done |].
  destruct (decide (x = b)) as [-> | Hne]; [done |].
  by eapply rtc_l.
Qed.

Lemma rtc_last_departure {A} `{EqDecision A} (R : relation A) (a x b : A) :
  rtc R x b →
  rtc (λ y z, R y z ∧ y ≠ a) x b
  ∨ ∃ y, R a y ∧ rtc (λ y z, R y z ∧ y ≠ a) y b.
Proof.
  induction 1 as [x | x y b Hxy _ [IH | IH]]; [by left | | by right].
  destruct (decide (x = a)) as [-> | Hne].
  - right. by exists y.
  - left. by eapply rtc_l.
Qed.

Lemma dependency_step (deps : gset (path * path)) (a b : path) :
  rtc (dependency deps) a b →
  a = b
  ∨ ∃ y, (a, y) ∈ deps ∧ rtc (dependency (deps ∖ {[ (a, y) ]})) y b.
Proof.
  intros Hr.
  destruct (rtc_last_departure (dependency deps) a a b Hr)
    as [Hr' | (y & Hay & Hr')].
  - left. by inversion Hr' as [|? ? ? [_ Hne]].
  - right. exists y. split; [done |].
    eapply rtc_subrel; [| exact Hr']. intros u v [Huv Hu].
    unfold dependency in *. apply elem_of_difference. split; [done |].
    intros [= -> ->]%elem_of_singleton. done.
Qed.

Lemma reaches_sound (n : nat) (deps : gset (path * path)) (a b : path) :
  reaches n deps a b = true → rtc (dependency deps) a b.
Proof.
  revert deps a. induction n as [|n IH]; intros deps a; simpl.
  - rewrite orb_false_r. by intros ->%bool_decide_eq_true.
  - intros [->%bool_decide_eq_true | E]%orb_true_iff; [done |].
    apply existsb_exists in E as ([x y] & Hin & E).
    apply andb_true_iff in E as [Hx Hr]. apply bool_decide_eq_true in Hx.
    simpl in *. subst x. apply IH in Hr.
    apply list_elem_of_In, elem_of_elements in Hin.
    eapply rtc_l; [exact Hin |].
    eapply rtc_subrel; [| exact Hr]. intros u v Huv.
    unfold dependency in *. by apply elem_of_difference in Huv as [? _].
Qed.

Lemma reaches_complete (n : nat) (deps : gset (path * path)) (a b : path) :
  (size deps ≤ n)%nat → rtc (dependency deps) a b →
  reaches n deps a b = true.
Proof.
  revert deps a. induction n as [|n IH]; intros deps a Hsize Hr;
    apply dependency_step in Hr as [-> | (y & Hay & Hr)]; simpl.
  - by rewrite bool_decide_eq_true_2.
  - assert (deps ≡ ∅) as Hd by (apply size_empty_inv; lia). set_solver.
  - by rewrite bool_decide_eq_true_2.
  - apply orb_true_iff. right. apply existsb_exists. exists (a, y).
    split; [by apply list_elem_of_In, elem_of_elements |]. simpl.
    rewrite bool_decide_eq_true_2 by done. simpl.
    apply IH; [| done].
    rewrite size_difference, size_singleton by set_solver.
    assert (size deps ≠ 0); [| lia].
    intros Hd%size_empty_inv. set_solver.
Qed.

Lemma dependsOn_rtc (deps : gset (path * path)) (a b : path) :
  dependsOn deps a b = true ↔ rtc (dependency deps) a b.
Proof.
  split; [apply reaches_sound | by apply reaches_complete].
Qed.

(** A dependency that was admitted is admitted again: the target reaches
    the stack through it no more than without it. *)
Lemma dependsOn_again (deps : gset (path * path)) (a b : path) :
  dependsOn deps b a = false →
  dependsOn ({[ (a, b) ]} ∪ deps) b a = false.
Proof.
  intros Hno. apply not_true_iff_false. intros Hr. apply dependsOn_rtc in Hr.
  apply rtc_first_arrival in Hr.
  assert (dependsOn deps b a = true) as Hyes; [| congruence].
  apply dependsOn_rtc. eapply rtc_subrel; [| exact Hr].
  intros u v [Huv Hu]. unfold dependency in *.
  apply elem_of_union in Huv as [[= -> ->]%elem_of_singleton | Huv]; done.
Qed.

(** An [addDependency] that returns, taken apart. *)
Lemma addDependency_Ok (a b : path) (t t' : Tree) :
  a ≠ b → addDependency a b t = Ok t' →
  dependsOn (dependencies t) b a = false
  ∧ constructs t' = constructs t
  ∧ dependencies t' = {[ (a, b) ]} ∪ dependencies t.
Proof.
  intros Hne. unfold addDependency. rewrite decide_False by done.
  destruct (dependsOn _ _ _); [done |]. by intros [= <-].
Qed.

Lemma addDependency_fresh (a b : path) (t : Tree) :
  a ≠ b → dependsOn (dependencies t) b a = false →
  ∃ t', addDependency a b t = Ok t'.
Proof.
  intros Hne Hno. unfold addDependency.
  rewrite decide_False, Hno by done. by eexists.
Qed.

(** The dependency is there, and was admitted: nothing changes. *)
Lemma addDependency_present (a b : path) (deps : gset (path * path))
    (t : Tree) :
  a ≠ b → dependsOn deps b a = false →
  dependencies t = {[ (a, b) ]} ∪ deps →
  addDependency a b t = Ok t.
Proof.
  intros Hne Hno Hd. unfold addDependency. rewrite decide_False by done.
  rewrite Hd, (dependsOn_again _ _ _ Hno). destruct t as [cs ds].
  simpl in *. subst ds. f_equal. f_equal.
  by rewrite (assoc_L (∪)), (idemp_L (∪)).
Qed.

Lemma grows_addDependency (a b : path) (t t' : Tree) :
  addDependency a b t = Ok t' → grows t t'.
Proof.
  destruct (decide (a = b)) as [-> | Hne].
  - unfold addDependency. rewrite decide_True by done.
    intros [= <-]. apply grows_refl.
  - intros (_ & Hc & Hd)%addDependency_Ok; [| done]. repeat split.
    + intros place c. by rewrite Hc.
    + rewrite Hd. apply union_subseteq_r.
    + intros q. by apply stackOf_constructs.
Qed.

Lemma tryFindChild_addDependency (a b s : path) (i : string) (t t' : Tree) :
  addDependency a b t = Ok t' → tryFindChild s i t' = tryFindChild s i t.
Proof.
  unfold addDependency.
  destruct (decide (a = b)); [by intros [= <-] |].
  destruct (dependsOn _ _ _); [done |]. by intros [= <-].
Qed.

End LayerProperties.

Section LayerCache.
Context `{Host}.

(** A layer of the consuming stack, or one with a plain ARN, is used as
    it is. *)
Lemma handleImportedLayer_direct (scope : path) (layer : Construct)
    (t : Tree) (layerStack currentStack : path) :
  stackOf t (node_path layer) = Ok layerStack →
  stackOf t scope = Ok currentStack →
  layerStack = currentStack ∨ isUnresolved (layerVersionArn layer) = false →
  handleImportedLayer scope layer t = Ok (layer, t).
Proof.
  intros Hl Hc Hd. unfold handleImportedLayer. rewrite Hl, Hc. simpl.
  destruct Hd as [-> | ->].
  - by rewrite bool_decide_eq_true_2.
  - by rewrite orb_true_r.
Qed.

(** A resolution of a foreign layer, taken apart. *)
Lemma handleImportedLayer_foreign (scope : path) (layer r : Construct)
    (t t' : Tree) (layerStack currentStack : path) :
  stackOf t (node_path layer) = Ok layerStack →
  stackOf t scope = Ok currentStack →
  layerStack ≠ currentStack →
  isUnresolved (layerVersionArn layer) = true →
  handleImportedLayer scope layer t = Ok (r, t') →
  grows t t'
  ∧ (dependsOn (dependencies t) layerStack currentStack = false
     ∧ dependencies t'
       = {[ (currentStack, layerStack) ]} ∪ dependencies t)
  ∧ (∃ param,
       tryFindChild layerStack (parameterId layer) t' = Some param
       ∧ (tryFindChild layerStack (parameterId layer) t = None →
          param = {| node_path := sanitizeId (parameterId layer) :: layerStack;
                     payload :=
                       IsStringParameter (parameterName layerStack layer)
                                         (layerVersionArn layer) |}))
  ∧ tryFindChild scope (layerId layer) t' = Some r
  ∧ (tryFindChild scope (layerId layer) t = None →
     r = {| node_path := sanitizeId (layerId layer) :: scope;
            payload :=
              IsLayer (ArnSsmValue (parameterName layerStack layer)) |}).
Proof.
  intros Hl Hc Hne Hu. unfold handleImportedLayer.
  rewrite Hl, Hc. simpl. rewrite bool_decide_eq_false_2 by done.
  rewrite Hu. simpl.
  destruct (addDependency currentStack layerStack t) as [t0|] eqn:Ha;
    [| done].
  rewrite bind_Ok.
  pose proof (grows_addDependency _ _ _ _ Ha) as G0.
  assert (F0 : ∀ s i, tryFindChild s i t0 = tryFindChild s i t)
    by (intros s i; by apply (tryFindChild_addDependency _ _ _ _ _ _ Ha)).
  apply addDependency_Ok in Ha as (Hno & _ & D0); [| done].
  destruct (tryFindChild layerStack (parameterId layer) t0) as [p|] eqn:Hp.
  - rewrite bind_Ok.
    destruct (tryFindChild scope (layerId layer) t0) as [e|] eqn:He.
    + intros [= <- <-]. rewrite <- !F0.
      split; [done |]. split; [done |].
      split; [exists p; by rewrite Hp |]. by rewrite He.
    + intros E.
      apply grows_newConstruct in E as (G1 & -> & _ & Hc1 & D1); [| done].
      split; [by eapply grows_trans |].
      split; [by rewrite D1 |]. rewrite <- !F0, Hp.
      split; [| done]. exists p. split; [by apply G1 | done].
  - destruct (newConstruct layerStack _ _ t0) as [[cp tp]|] eqn:Hn; [| done].
    assert (Fp : tryFindChild scope (layerId layer) tp
                 = tryFindChild scope (layerId layer) t0).
    { apply (newConstruct_elsewhere _ _ _ _ _ _ _ _ Hn).
      intros E. by apply (parameterId_ne_layerId layer). }
    apply grows_newConstruct in Hn as (Gp & -> & _ & Hcp & Dp); [| done].
    rewrite !bind_Ok.
    destruct (tryFindChild scope (layerId layer) tp) as [e|] eqn:He.
    + intros [= <- <-]. rewrite <- !F0, <- Fp, Hp.
      split; [by eapply grows_trans |]. split; [by rewrite Dp |].
      split; [eauto |]. by rewrite He.
    + intros E.
      apply grows_newConstruct in E as (G1 & -> & _ & Hc1 & D1); [| done].
      split; [eapply grows_trans; [| exact G1]; by eapply grows_trans |].
      split; [by rewrite D1, Dp |]. rewrite <- !F0, Hp.
      split; [| done]. eexists. split; [by apply G1 | done].
Qed.

(** A second resolution finds what the first one left. *)
Lemma handleImportedLayer_found (scope : path) (layer r : Construct)
    (t : Tree) (layerStack currentStack : path) :
  stackOf t (node_path layer) = Ok layerStack →
  stackOf t scope = Ok currentStack →
  layerStack ≠ currentStack →
  isUnresolved (layerVersionArn layer) = true →
  addDependency currentStack layerStack t = Ok t →
  is_Some (tryFindChild layerStack (parameterId layer) t) →
  tryFindChild scope (layerId layer) t = Some r →
  handleImportedLayer scope layer t = Ok (r, t).
Proof.
  intros Hl Hc Hne Hu Hd [p Hp] Hr. unfold handleImportedLayer.
  rewrite Hl, Hc. simpl. rewrite bool_decide_eq_false_2 by done.
  rewrite Hu. simpl. rewrite Hd, bind_Ok, Hp, bind_Ok. by rewrite Hr.
Qed.

Lemma handleImportedLayer_twice (scope : path) (layer r : Construct)
    (t t1 : Tree) (layerStack currentStack : path) :
  stackOf t (node_path layer) = Ok layerStack →
  stackOf t scope = Ok currentStack →
  layerStack ≠ currentStack →
  isUnresolved (layerVersionArn layer) = true →
  handleImportedLayer scope layer t = Ok (r, t1) →
  handleImportedLayer scope layer t1 = Ok (r, t1).
Proof.
  intros Hl Hc Hne Hu E.
  destruct (handleImportedLayer_foreign _ _ _ _ _ _ _ Hl Hc Hne Hu E)
    as ((_ & _ & S1) & (Hno & D1) & (param & Hp & _) & Hr & _).
  apply (handleImportedLayer_found _ _ _ _ layerStack currentStack);
    rewrite ?S1; eauto.
  by apply (addDependency_present _ _ (dependencies t)).
Qed.

(** Where cdk admits the dependency, the resolver of this embedding
    returns; what [ssm] can throw for the parameter is outside it. *)
Lemma handleImportedLayer_resolves (scope : path) (layer : Construct)
    (t : Tree) (layerStack currentStack : path) :
  stackOf t (node_path layer) = Ok layerStack →
  stackOf t scope = Ok currentStack →
  layerStack ≠ currentStack →
  isUnresolved (layerVersionArn layer) = true →
  dependsOn (dependencies t) layerStack currentStack = false →
  ∃ r t1, handleImportedLayer scope layer t = Ok (r, t1).
Proof.
  intros Hl Hc Hne Hu Hno. unfold handleImportedLayer.
  rewrite Hl, Hc. simpl. rewrite bool_decide_eq_false_2 by done.
  rewrite Hu. simpl.
  destruct (addDependency_fresh currentStack layerStack t) as [t0 ->];
    [done | done |].
  rewrite bind_Ok.
  assert (∃ tp, match tryFindChild layerStack (parameterId layer) t0 with
                | Some _ => Ok t0
                | None =>
                    '(_, t) ← newConstruct layerStack (parameterId layer)
                                (IsStringParameter
                                   (parameterName layerStack layer)
                                   (layerVersionArn layer)) t0;
                    Ok t
                end = Ok tp) as [tp ->].
  { destruct (tryFindChild layerStack _ t0) eqn:Hp; [by eexists |].
    destruct (newConstruct_fresh layerStack (parameterId layer)
                (IsStringParameter (parameterName layerStack layer)
                                   (layerVersionArn layer)) t0)
      as (c & tp & ->); [apply parameterId_nonempty | done |].
    by eexists. }
  rewrite bind_Ok.
  destruct (tryFindChild scope (layerId layer) tp) eqn:He; [by eexists _, _ |].
  apply newConstruct_fresh; [apply layerId_nonempty | done].
Qed.

(** C4. When a foreign layer (its stack is not the stack of the consuming
    scope, its ARN is unresolved) has been resolved, resolving it again
    from the same scope returns the very same construct and leaves the
    tree as it is: nothing is created twice.  That construct is the import
    kept under the scope: the one that was there, or else a new one that
    reads its ARN from the published parameter.  Two foreign layers, which
    cdk gives two addresses of one length, never get the same
    published-parameter key, be it the id of the parameter, the id under
    which cdk keeps it (for addresses without a slash) or its name. *)
Theorem handleImportedLayer_cached :
  (∀ (scope : path) (layer r : Construct) (t t1 : Tree)
     (layerStack currentStack : path),
     stackOf t (node_path layer) = Ok layerStack →
     stackOf t scope = Ok currentStack →
     layerStack ≠ currentStack →
     isUnresolved (layerVersionArn layer) = true →
     handleImportedLayer scope layer t = Ok (r, t1) →
     handleImportedLayer scope layer t1 = Ok (r, t1)
     ∧ tryFindChild scope (layerId layer) t1 = Some r
     ∧ match tryFindChild scope (layerId layer) t with
       | Some existingLayer => r = existingLayer
       | None =>
           r = {| node_path := sanitizeId (layerId layer) :: scope;
                  payload :=
                    IsLayer (ArnSsmValue (parameterName layerStack layer)) |}
       end)
  ∧ (∀ (layer1 layer2 : Construct) (stack1 stack2 : path),
       nodeAddr (node_path layer1) ≠ nodeAddr (node_path layer2) →
       String.length (nodeAddr (node_path layer1))
       = String.length (nodeAddr (node_path layer2)) →
       parameterId layer1 ≠ parameterId layer2
       ∧ parameterName stack1 layer1 ≠ parameterName stack2 layer2
       ∧ (occurs "/" (nodeAddr (node_path layer1)) = false →
          occurs "/" (nodeAddr (node_path layer2)) = false →
          sanitizeId (parameterId layer1) ≠ sanitizeId (parameterId layer2))).
Proof.
  split.
  - intros scope layer r t t1 ls cs Hl Hc Hne Hu E.
    split; [by eapply handleImportedLayer_twice |].
    destruct (handleImportedLayer_foreign _ _ _ _ _ _ _ Hl Hc Hne Hu E)
      as ((G & _) & _ & _ & Hr & Hnew).
    split; [done |].
    destruct (tryFindChild scope (layerId layer) t) as [e|] eqn:He;
      [| by apply Hnew].
    apply G in He. unfold tryFindChild in Hr.
    exact (Some_inj _ _ (eq_trans (eq_sym Hr) He)).
  - intros l1 l2 s1 s2 Hne Hlen. split; [| split]; intros E.
    + apply Hne. destruct (parameterId_ends l1) as [p1 E1],
                          (parameterId_ends l2) as [p2 E2].
      rewrite E1, E2 in E. by apply (append_suffix_inj p1 p2).
    + apply Hne. destruct (parameterName_ends s1 l1) as [p1 E1],
                          (parameterName_ends s2 l2) as [p2 E2].
      rewrite E1, E2 in E. by apply (append_suffix_inj p1 p2).
    + intros H2 E'. apply Hne.
      destruct (parameterId_ends l1) as [p1 E1],
               (parameterId_ends l2) as [p2 E2].
      rewrite E1, E2, !sanitizeId_app in E'.
      rewrite (sanitizeId_plain _ E), (sanitizeId_plain _ H2) in E'.
      by apply (append_suffix_inj (sanitizeId p1) (sanitizeId p2)).
Qed.

End LayerCache.

Lemma handleImportedLayer_cached_witness :
  (∃ r t1,
     handleImportedLayer ["Api"; "StackB"] exampleLayer exampleTree
     = Ok (r, t1)
     ∧ handleImportedLayer ["Api"; "StackB"] exampleLayer t1 = Ok (r, t1)
     ∧ tryFindChild ["Api"; "StackB"] (layerId exampleLayer) t1 = Some r)
  ∧ parameterId exampleLayer ≠ parameterId exampleLayer2
  ∧ parameterName ["StackA"] exampleLayer
    ≠ parameterName ["StackA"] exampleLayer2.
Proof.
  split.
  - destruct (handleImportedLayer_resolves ["Api"; "StackB"] exampleLayer
                exampleTree ["StackA"] ["StackB"]) as (r & t1 & E);
      [by vm_compute | by vm_compute | done | done | by vm_compute |].
    exists r, t1. split; [exact E |].
    destruct (proj1 handleImportedLayer_cached ["Api"; "StackB"]
                exampleLayer r exampleTree t1 ["StackA"] ["StackB"])
      as (E2 & Hr & _).
    + vm_compute. reflexivity.
    + vm_compute. reflexivity.
    + discriminate.
    + reflexivity.
    + exact E.
    + by split.
  - destruct (proj2 handleImportedLayer_cached exampleLayer exampleLayer2
                ["StackA"] ["StackA"]) as (H1 & H2 & _).
    + vm_compute. discriminate.
    + vm_compute. reflexivity.
    + by split.
Defined.

(** ** The methods that run at the end of the constructor *)

Section MethodProperties.
Context `{Host}.

Lemma extends_refl (fn : FunctionConstruct) : extends fn fn.
Proof. by split. Qed.

Lemma extends_trans (fn1 fn2 fn3 : FunctionConstruct) :
  extends fn1 fn2 → extends fn2 fn3 → extends fn1 fn3.
Proof. intros [B1 E1] [B2 E2]. split; [congruence | auto]. Qed.

Lemma extends_foldl {X} (f : FunctionConstruct → X → FunctionConstruct)
    (xs : list X) (fn : FunctionConstruct) :
  (∀ fn x, extends fn (f fn x)) → extends fn (foldl f fn xs).
Proof.
  intros Hf. revert fn. induction xs as [|x xs IH]; intros fn; simpl.
  - apply extends_refl.
  - eapply extends_trans; [apply Hf | apply IH].
Qed.

Lemma extends_addEnvironment (key value : string) (fn : FunctionConstruct) :
  extends fn (addEnvironment key value fn).
Proof.
  split; [done |]. intros k Hk. simpl.
  destruct (decide (key = k)) as [-> | Hne].
  - rewrite lookup_insert_eq. eauto.
  - by rewrite lookup_insert_ne.
Qed.

Lemma extends_grant (p : Permissions) (fn : FunctionConstruct) :
  extends fn (grant p fn).
Proof. by split. Qed.

Lemma extends_attachPermissionsWith
    (bindJob : SSTConstruct → FunctionConstruct → FunctionConstruct)
    (p : Permissions) (fn : FunctionConstruct) :
  (∀ job fn, extends fn (bindJob job fn)) →
  extends fn (attachPermissionsWith bindJob p fn).
Proof.
  intros Hb. unfold attachPermissionsWith.
  eapply extends_trans; [apply (extends_grant p) |].
  destruct p; [apply extends_refl | by apply extends_foldl].
Qed.

Lemma extends_Function_bind (cs : list SSTConstruct)
    (fn : FunctionConstruct) :
  extends fn (Function_bind cs fn).
Proof.
  unfold Function_bind. apply extends_foldl. clear fn. intros fn c.
  apply (extends_trans _ (foldl (λ fn kv, addEnvironment kv.1 kv.2 fn) fn
                               (bindEnvironment c))).
  - apply extends_foldl. intros fn' kv. apply extends_addEnvironment.
  - apply extends_foldl. intros fn' ar.
    apply extends_attachPermissionsWith. intros _ fn''. apply extends_refl.
Qed.

Lemma extends_attachPermissions (p : Permissions) (fn : FunctionConstruct) :
  extends fn (attachPermissions p fn).
Proof.
  apply extends_attachPermissionsWith. intros job fn'.
  apply extends_Function_bind.
Qed.

Lemma extends_createUrl (fn : FunctionConstruct) : extends fn (createUrl fn).
Proof.
  unfold createUrl.
  destruct (read (url (fn_props fn))) as [[[]|]|]; by split.
Qed.

(** A variable that no binding writes is left as it is. *)
Lemma Function_bind_unbound (key : string) (cs : list SSTConstruct)
    (fn : FunctionConstruct) :
  unbound key cs →
  fn_environment (Function_bind cs fn) !! key = fn_environment fn !! key.
Proof.
  unfold Function_bind. revert fn.
  induction cs as [|c cs IH]; intros fn Hu; [done |].
  cbn [foldl]. rewrite IH.
  2: { intros c' kv Hc'. apply Hu. by right. }
  assert (Hc : ∀ kv, kv ∈ bindEnvironment c → kv.1 ≠ key)
    by (intros kv; apply Hu; by left).
  clear IH Hu. generalize (bindPermissions c). intros ps.
  transitivity (fn_environment
                  (foldl (λ fn kv, addEnvironment kv.1 kv.2 fn) fn
                         (bindEnvironment c)) !! key).
  - generalize (foldl (λ fn kv, addEnvironment kv.1 kv.2 fn) fn
                      (bindEnvironment c)).
    induction ps as [|ar ps IH]; intros fn'; [done |].
    cbn [foldl]. by rewrite IH.
  - revert fn. induction (bindEnvironment c) as [|kv kvs IH]; intros fn;
      [done |].
    cbn [foldl]. rewrite IH.
    + simpl. apply lookup_insert_ne. apply Hc. by left.
    + intros kv' Hkv'. apply Hc. by right.
Qed.

Lemma attachPermissions_unbound (key : string) (p : Permissions)
    (fn : FunctionConstruct) :
  unbound key (jobsOf p) →
  fn_environment (attachPermissions p fn) !! key = fn_environment fn !! key.
Proof.
  unfold attachPermissions, attachPermissionsWith, jobsOf.
  destruct p as [|l]; [done |].
  change (fn_environment fn) with (fn_environment (grant (PermList l) fn)).
  generalize (grant (PermList l) fn). clear fn.
  induction (omap asJob l) as [|job jobs IH]; intros fn Hu; [done |].
  cbn [foldl]. rewrite IH.
  - apply Function_bind_unbound. intros c kv Hc. apply Hu.
    apply list_elem_of_singleton in Hc as ->. by left.
  - intros c kv Hc. apply Hu. by right.
Qed.

End MethodProperties.

(** ** The constructor *)

Lemma validateHandler_Ok (handler : option string) (h : string) :
  validateHandler handler = Ok h ↔ handler = Some h ∧ h ≠ "".
Proof.
  unfold validateHandler. destruct handler as [h'|].
  - destruct (decide (h' = "")) as [-> | Hne]; split.
    + done.
    + by intros [[= <-] ?].
    + by intros [= <-].
    + by intros [[= <-] _].
  - split; [done | by intros [? _]].
Qed.

Lemma validateHandler_Err (handler : option string) :
  handler = None ∨ handler = Some "" →
  validateHandler handler = Err MissingHandler.
Proof. by intros [-> | ->]. Qed.

Lemma startsWith_python_not_nodejs (r : string) :
  startsWith r "python" = true → startsWith r "nodejs" = false.
Proof.
  unfold startsWith. destruct r as [|c r]; [done |].
  change (String.prefix "python" (String c r))
    with (if Ascii.ascii_dec "p" c then String.prefix "ython" r else false).
  change (String.prefix "nodejs" (String c r))
    with (if Ascii.ascii_dec "n" c then String.prefix "odejs" r else false).
  destruct (Ascii.ascii_dec "p" c) as [<- | ?]; [intros _ | done].
  by destruct (Ascii.ascii_dec "n" "p").
Qed.

Section ConstructorProperties.
Context `{Host}.

Lemma extends_afterSuper (app : App) (runtime : string)
    (props : FunctionProps) (fn : FunctionConstruct) :
  extends fn (afterSuper app runtime props fn).
Proof.
  unfold afterSuper, addConfig.
  repeat (eapply extends_trans;
          [| first [ apply extends_createUrl
                   | apply extends_Function_bind
                   | apply extends_addEnvironment
                   | apply extends_attachPermissions ] ]).
  repeat match goal with
         | |- context [if ?b then _ else _] => destruct b
         end;
    repeat (eapply extends_trans;
            [| first [ apply extends_addEnvironment
                     | apply extends_attachPermissions ] ]);
    apply extends_refl.
Qed.

End ConstructorProperties.

Section Validation.
Context `{Host}.

(** C5, as amended. The constructor takes its steps in one order, and the
    first that throws decides the error.  Once [Stack.of] has found the
    stack of the scope and a callback for the function name has returned,
    a timeout that is refused fails the construction, whatever the other
    props are.  The timeout normalized, an unsupported runtime fails with
    [UnsupportedRuntime]; then, the runtime admitted and the memory and
    disk sizes normalized, merged props without a handler (none, or the
    empty string) fail with [MissingHandler]; then, a handler given,
    construction fails with [InvalidBundleConfig] when the runtime is of
    the Node family, [bundle] is [false] and the normalized source path is
    ["."], and, for a runtime of the Python family, when the normalized
    source path is ["."] whatever the bundle is, as for the props
    [{handler: "src/api.handler", runtime: "python3.9", srcPath: "."}]. *)
Theorem construct_validation (app : App) (defaults : list FunctionProps)
    (scope stack : path) (id : string) (props : FunctionProps) (t : Tree)
    (name_ : option string) :
  let merged := applyDefaults defaults props in
  let srcPath_ := normalizeSrcPath (stringOr (read (srcPath merged)) ".") in
  stackOf t scope = Ok stack →
  resolveFunctionName merged = Ok name_ →
  (∀ e, normalizeTimeout (read (timeout merged)) = Err e →
        construct app defaults scope id props t = Err e)
  ∧ (∀ d, normalizeTimeout (read (timeout merged)) = Ok d →
       (normalizeRuntime (read (runtime merged)) = Err UnsupportedRuntime →
        construct app defaults scope id props t = Err UnsupportedRuntime)
       ∧ (∀ (r : string) (m : Z) (z : CdkSize),
            normalizeRuntime (read (runtime merged)) = Ok r →
            normalizeMemorySize (read (memorySize merged)) = Ok m →
            normalizeDiskSize (read (diskSize merged)) = Ok z →
            (read (handler merged) = None ∨ read (handler merged) = Some "" →
             construct app defaults scope id props t = Err MissingHandler)
            ∧ (∀ h : string,
                 read (handler merged) = Some h → h ≠ "" →
                 (startsWith r "nodejs" = true →
                  read (bundle merged) = Some (BundleBool false) →
                  srcPath_ = "." →
                  construct app defaults scope id props t
                  = Err InvalidBundleConfig)
                 ∧ (startsWith r "python" = true →
                    srcPath_ = "." →
                    construct app defaults scope id props t
                    = Err InvalidBundleConfig))))
  ∧ construct app [] scope id examplePythonAtRoot t = Err InvalidBundleConfig.
Proof.
  cbv zeta. intros Hs Hn. split; [| split].
  - intros e Hd. unfold construct. cbv zeta.
    by rewrite Hs, bind_Ok, Hn, bind_Ok, Hd.
  - intros d Hd. split.
    + intros Hr. unfold construct. cbv zeta.
      by rewrite Hs, bind_Ok, Hn, bind_Ok, Hd, bind_Ok, Hr.
    + intros r m z Hr Hm Hz. split.
      * intros Hh. unfold construct. cbv zeta.
        rewrite Hs, bind_Ok, Hn, bind_Ok, Hd, bind_Ok, Hr, bind_Ok,
          Hm, bind_Ok, Hz, bind_Ok.
        by rewrite (validateHandler_Err _ Hh).
      * intros h Hh Hne.
        assert (Hv : validateHandler (read (handler (applyDefaults defaults
                                                       props))) = Ok h)
          by by apply validateHandler_Ok.
        split.
        -- intros Hnode Hb Hsrc. unfold construct. cbv zeta.
           rewrite Hs, bind_Ok, Hn, bind_Ok, Hd, bind_Ok, Hr, bind_Ok,
             Hm, bind_Ok, Hz, bind_Ok, Hv, bind_Ok, Hsrc, Hb.
           unfold validateBundle. by rewrite Hnode.
        -- intros Hp Hsrc. unfold construct. cbv zeta.
           rewrite Hs, bind_Ok, Hn, bind_Ok, Hd, bind_Ok, Hr, bind_Ok,
             Hm, bind_Ok, Hz, bind_Ok, Hv, bind_Ok, Hsrc.
           unfold validateBundle.
           by rewrite (startsWith_python_not_nodejs _ Hp), Hp.
  - unfold construct. by rewrite Hs.
Qed.

End Validation.

Lemma construct_validation_witness :
  construct exampleApp [] ["Api"; "StackB"] "Fn" exampleRubyNoHandler
            exampleTree
  = Err UnsupportedRuntime
  ∧ construct exampleApp [] ["Api"; "StackB"] "Fn" emptyProps exampleTree
    = Err MissingHandler
  ∧ construct exampleApp [] ["Api"; "StackB"] "Fn" exampleNodeUnbundled
              exampleTree
    = Err InvalidBundleConfig
  ∧ construct exampleApp [] ["Api"; "StackB"] "Fn" examplePythonAtRoot
              exampleTree
    = Err InvalidBundleConfig.
Proof.
  assert (Hs : stackOf exampleTree ["Api"; "StackB"] = Ok ["StackB"])
    by (by vm_compute).
  split; [| split; [| split]].
  - apply (proj1 (proj1 (proj2 (construct_validation exampleApp []
                                  ["Api"; "StackB"] ["StackB"] "Fn"
                                  exampleRubyNoHandler exampleTree None
                                  Hs eq_refl))
                    (DurationSeconds 10) eq_refl)).
    reflexivity.
  - apply (proj1 (proj2 (proj1 (proj2 (construct_validation exampleApp []
                                         ["Api"; "StackB"] ["StackB"] "Fn"
                                         emptyProps exampleTree None
                                         Hs eq_refl))
                           (DurationSeconds 10) eq_refl)
                    "nodejs14.x" 1024%Z (SizeMebibytes 512)
                    eq_refl eq_refl eq_refl)).
    left. reflexivity.
  - apply (proj1 (proj2 (proj2 (proj1 (proj2 (construct_validation
                                                exampleApp []
                                                ["Api"; "StackB"]
                                                ["StackB"] "Fn"
                                                exampleNodeUnbundled
                                                exampleTree None
                                                Hs eq_refl))
                                  (DurationSeconds 10) eq_refl)
                           "nodejs14.x" 1024%Z (SizeMebibytes 512)
                           eq_refl eq_refl eq_refl)
                    "src/api.handler" eq_refl ltac:(discriminate)));
      reflexivity.
  - apply (proj2 (proj2 (proj2 (proj1 (proj2 (construct_validation
                                                exampleApp []
                                                ["Api"; "StackB"]
                                                ["StackB"] "Fn"
                                                examplePythonAtRoot
                                                exampleTree None
                                                Hs eq_refl))
                                  (DurationSeconds 10) eq_refl)
                           "python3.9" 1024%Z (SizeMebibytes 512)
                           eq_refl eq_refl eq_refl)
                    "src/api.handler" eq_refl ltac:(discriminate)));
      reflexivity.
Defined.

(** C5 as stated fails: without a handler, a Python runtime at the
    application root is answered with [MissingHandler], not with
    [InvalidBundleConfig]; without a handler, an unsupported runtime is
    answered with [UnsupportedRuntime], not with [MissingHandler]; and
    with a negative timeout besides, it is answered with the error of
    [cdk.Duration], since the timeout is normalized first. *)
Lemma construct_checks_in_order :
  (read (handler examplePythonNoHandler) = None
   ∧ read (runtime examplePythonNoHandler) = Some "python3.9"
   ∧ normalizeSrcPath
       (stringOr (read (srcPath examplePythonNoHandler)) ".") = "."
   ∧ construct exampleApp [] ["Api"; "StackB"] "Fn" examplePythonNoHandler
               exampleTree
     = Err MissingHandler)
  ∧ (read (handler exampleRubyNoHandler) = None
     ∧ construct exampleApp [] ["Api"; "StackB"] "Fn" exampleRubyNoHandler
                 exampleTree
       = Err UnsupportedRuntime)
  ∧ (read (handler exampleRubyNegativeTimeout) = None
     ∧ normalizeRuntime (read (runtime exampleRubyNegativeTimeout))
       = Err UnsupportedRuntime
     ∧ construct exampleApp [] ["Api"; "StackB"] "Fn"
                 exampleRubyNegativeTimeout exampleTree
       = Err CdkError).
Proof. repeat split; vm_compute; reflexivity. Qed.

(** The statements of the constructor up to [super], in a construction
    that returned. *)
Ltac construct_checks E :=
  unfold construct in E; cbv zeta in E;
  destruct (stackOf _ _) as [s|] eqn:Hs; [| done]; rewrite bind_Ok in E;
  destruct (resolveFunctionName _) as [n|] eqn:Hn; [| done];
  rewrite bind_Ok in E;
  destruct (normalizeTimeout _) as [d|] eqn:Hd; [| done];
  rewrite bind_Ok in E;
  destruct (normalizeRuntime _) as [r|] eqn:Hr; [| done];
  rewrite bind_Ok in E;
  destruct (normalizeMemorySize _) as [m|] eqn:Hm; [| done];
  rewrite bind_Ok in E;
  destruct (normalizeDiskSize _) as [z|] eqn:Hz; [| done];
  rewrite bind_Ok in E;
  destruct (validateHandler _) as [h|] eqn:Hh; [| done];
  rewrite bind_Ok in E;
  destruct (validateBundle _ _ _) as [b|] eqn:Hb; [| done];
  rewrite bind_Ok in E.

Section Construction.
Context `{Host}.

Lemma createUrl_environment (fn : FunctionConstruct) :
  fn_environment (createUrl fn) = fn_environment fn.
Proof.
  unfold createUrl. by destruct (read (url (fn_props fn))) as [[[]|]|].
Qed.

Lemma unbound_app (key : string) (cs ds : list SSTConstruct) :
  unbound key (cs ++ ds) → unbound key cs ∧ unbound key ds.
Proof.
  intros Hu. split; intros c kv Hc; apply Hu, elem_of_app; auto.
Qed.

(** The variables that the constructor sets after [super]. *)
Lemma afterSuper_reserved (app : App) (runtime : string)
    (props : FunctionProps) (fn : FunctionConstruct) :
  let bound := default [] (read (config props))
               ++ default [] (read (bind props)) in
  let env := fn_environment (afterSuper app runtime props fn) in
  (unbound "SST_APP" bound → env !! "SST_APP" = Some (name app))
  ∧ (unbound "SST_STAGE" bound → env !! "SST_STAGE" = Some (stage app))
  ∧ (ssmPrefix ≠ "" → unbound "SST_SSM_PREFIX" bound →
     env !! "SST_SSM_PREFIX" = Some ssmPrefix).
Proof.
  cbv zeta. unfold afterSuper, addConfig.
  split; [| split]; [intros Hu | intros Hu | intros Hp Hu];
    apply unbound_app in Hu as [Hc Hb];
    rewrite createUrl_environment, !Function_bind_unbound by done;
    destruct (decide (ssmPrefix = "")); try done; simpl.
  - by rewrite lookup_insert_ne, lookup_insert_eq.
  - by rewrite lookup_insert_ne, lookup_insert_ne, lookup_insert_eq.
  - by rewrite lookup_insert_eq.
  - by rewrite lookup_insert_ne, lookup_insert_eq.
  - by rewrite lookup_insert_eq.
Qed.

(** A variable that neither the constructor nor a binding writes. *)
Lemma afterSuper_keeps (key : string) (app : App) (runtime : string)
    (props : FunctionProps) (fn : FunctionConstruct) :
  key ∉ [ "AWS_NODEJS_CONNECTION_REUSE_ENABLED"; "SST_APP"; "SST_STAGE";
          "SST_SSM_PREFIX" ] →
  unbound key (boundConstructs props) →
  fn_environment (afterSuper app runtime props fn) !! key
  = fn_environment fn !! key.
Proof.
  intros Hk Hu. unfold boundConstructs in Hu.
  apply unbound_app in Hu as [Hj Hu]. apply unbound_app in Hu as [Hc Hb].
  assert (key ≠ "AWS_NODEJS_CONNECTION_REUSE_ENABLED"
          ∧ key ≠ "SST_APP" ∧ key ≠ "SST_STAGE" ∧ key ≠ "SST_SSM_PREFIX")
    as (K1 & K2 & K3 & K4).
  { repeat split; intros ->; apply Hk; set_solver. }
  unfold afterSuper, addConfig.
  rewrite createUrl_environment, !Function_bind_unbound by done.
  assert (E : fn_environment
                (addEnvironment "SST_STAGE" (stage app)
                   (addEnvironment "SST_APP" (name app)
                      (attachPermissions
                         (default (PermList []) (read (permissions props)))
                         (if startsWith runtime "nodejs"
                          then addEnvironment
                                 "AWS_NODEJS_CONNECTION_REUSE_ENABLED" "1" fn
                          else fn)))) !! key
              = fn_environment fn !! key).
  { simpl. rewrite !lookup_insert_ne by done.
    rewrite attachPermissions_unbound by done.
    destruct (startsWith runtime "nodejs"); [| done].
    simpl. by rewrite lookup_insert_ne. }
  destruct (decide (ssmPrefix = "")); [exact E |].
  simpl. rewrite lookup_insert_ne by done. exact E.
Qed.

(** What [super] receives in live development. *)
Lemma liveDev_super_arguments (app : App) (defaults : list FunctionProps)
    (scope : path) (id : string) (props : FunctionProps) (t t' : Tree)
    (fn : FunctionConstruct) :
  let merged := applyDefaults defaults props in
  let srcPath_ := normalizeSrcPath (stringOr (read (srcPath merged)) ".") in
  selectMode app (liveDevEnabled merged) = LiveDev →
  construct app defaults scope id props t = Ok (fn, t') →
  ∃ h env,
    read (handler merged) = Some h
    ∧ lp_environment (base fn) = Some env
    ∧ env !! "SST_DEBUG_SRC_PATH" = Some srcPath_
    ∧ env !! "SST_DEBUG_SRC_HANDLER" = Some h
    ∧ env !! "SST_FUNCTION_ID" = Some (localIdOf scope id)
    ∧ (∀ key, is_Some (env !! key) → is_Some (fn_environment fn !! key))
    ∧ (∀ key, key ∈ debugKeys → unbound key (boundConstructs merged) →
              fn_environment fn !! key = env !! key)
    ∧ lp_runtime (base fn) = NODEJS_16_X
    ∧ lp_retryAttempts (base fn) = Some 0%Z
    ∧ (debugIncreaseTimeout app = true →
       lp_timeout (base fn) = DurationSeconds 900).
Proof.
  cbv zeta. intros Hmode E. construct_checks E.
  rewrite Hmode in E.
  destruct (super _ _ _ _) as [t1|]; [| done]. rewrite !bind_Ok in E.
  apply validateHandler_Ok in Hh as [Hh _].
  match type of E with
  | context [afterSuper _ _ _ (attachPermissions ?p ?fn0')] =>
      set (fn0 := fn0') in *;
      pose proof (extends_trans _ _ _ (extends_attachPermissions p fn0)
                    (extends_afterSuper app r
                       (applyDefaults defaults props)
                       (attachPermissions p fn0))) as [Hbase Henv];
      assert (Efn : afterSuper app r (applyDefaults defaults props)
                      (attachPermissions p fn0) = fn)
        by exact (f_equal (λ x, match x with
                                | Ok (a, _) => a
                                | Err _ => fn
                                end) E)
  end.
  assert (Hkeys :
    ∀ key, key ∈ debugKeys →
           unbound key (boundConstructs (applyDefaults defaults props)) →
           fn_environment fn !! key
           = fn_environment
               (attachPermissions (PermList [iotStatement]) fn0) !! key).
  { intros key Hk Hu. rewrite <- Efn. apply afterSuper_keeps; [| done].
    unfold debugKeys in Hk. intros Hr'.
    repeat (apply elem_of_cons in Hk as [-> | Hk];
            [by repeat (apply elem_of_cons in Hr' as [? | Hr'];
                        [done |]); apply elem_of_nil in Hr' |]).
    by apply elem_of_nil in Hk. }
  rewrite Efn in Hbase, Henv. clear E Efn.
  rewrite Hbase. simpl. eexists h, _. split; [done |].
  split; [reflexivity |]. simpl in Henv.
  repeat split; try done.
  - by rewrite lookup_insert_ne, lookup_insert_ne, lookup_insert_eq.
  - by rewrite lookup_insert_ne, lookup_insert_eq.
  - by rewrite lookup_insert_eq.
  - by intros ->.
Qed.

End Construction.

Section Modes.
Context `{Host}.

Lemma selectMode_LiveDev (app : App) (props : FunctionProps) :
  liveDevEnabled props = true → mode app = "start" →
  selectMode app (liveDevEnabled props) = LiveDev.
Proof. intros Hl Hm. unfold selectMode. by rewrite Hl, Hm. Qed.

Lemma super_fresh (scope : path) (id : string) (props : LambdaProps)
    (t : Tree) :
  id ≠ "" → tryFindChild scope id t = None → functionError props = None →
  ∃ t', super scope id props t = Ok t'.
Proof.
  intros Hid Hfree Hp. unfold super.
  destruct (newConstruct_fresh scope id IsOther t Hid Hfree) as (c & t' & ->).
  rewrite bind_Ok, Hp. by eexists.
Qed.

(** Where every step up to [super] returns, the scope has no child of
    the id yet and [lambda.Function] takes its props, the constructor of
    this embedding returns; what the methods after [super] can throw is
    outside it. *)
Lemma construct_succeeds (app : App) (defaults : list FunctionProps)
    (scope s : path) (id : string) (props : FunctionProps) (t : Tree)
    (n : option string) (d : CdkDuration) (r h : string) (m : Z)
    (z : CdkSize) (b : option FunctionBundleProp) :
  let merged := applyDefaults defaults props in
  let srcPath_ := normalizeSrcPath (stringOr (read (srcPath merged)) ".") in
  stackOf t scope = Ok s →
  resolveFunctionName merged = Ok n →
  normalizeTimeout (read (timeout merged)) = Ok d →
  normalizeRuntime (read (runtime merged)) = Ok r →
  normalizeMemorySize (read (memorySize merged)) = Ok m →
  normalizeDiskSize (read (diskSize merged)) = Ok z →
  validateHandler (read (handler merged)) = Ok h →
  validateBundle r srcPath_ (read (bundle merged)) = Ok b →
  id ≠ "" → (∀ lp, functionError lp = None) →
  (selectMode app (liveDevEnabled merged) = LiveDev →
   tryFindChild scope id t = None →
   ∃ fn t', construct app defaults scope id props t = Ok (fn, t'))
  ∧ (selectMode app (liveDevEnabled merged) ≠ LiveDev →
     ∀ ls t1, buildLayers scope id merged t = Ok (ls, t1) →
              tryFindChild scope id t1 = None →
              ∃ fn t', construct app defaults scope id props t = Ok (fn, t')).
Proof.
  cbv zeta. intros Hs Hn Hd Hr Hm Hz Hh Hb Hid Hf. split.
  - intros Hmode Hfree. unfold construct. cbv zeta.
    rewrite Hs, bind_Ok, Hn, bind_Ok, Hd, bind_Ok, Hr, bind_Ok,
      Hm, bind_Ok, Hz, bind_Ok, Hh, bind_Ok, Hb, bind_Ok, Hmode.
    match goal with
    | |- context [super scope id ?lp t] =>
        destruct (super_fresh scope id lp t Hid Hfree (Hf lp)) as [t' ->]
    end.
    rewrite !bind_Ok. by eexists _, _.
  - intros Hmode ls t1 Hl Hfree. unfold construct. cbv zeta.
    rewrite Hs, bind_Ok, Hn, bind_Ok, Hd, bind_Ok, Hr, bind_Ok,
      Hm, bind_Ok, Hz, bind_Ok, Hh, bind_Ok, Hb, bind_Ok.
    destruct (selectMode _ _); [done | |].
    + rewrite Hl, bind_Ok.
      match goal with
      | |- context [super scope id ?lp t1] =>
          destruct (super_fresh scope id lp t1 Hid Hfree (Hf lp)) as [t' ->]
      end.
      rewrite !bind_Ok. by eexists _, _.
    + rewrite Hl, bind_Ok.
      match goal with
      | |- context [super scope id ?lp t1] =>
          destruct (super_fresh scope id lp t1 Hid Hfree (Hf lp)) as [t' ->]
      end.
      rewrite !bind_Ok. by eexists _, _.
Qed.

(** C3. With live development enabled and the app in start mode, the
    constructed function runs on the fixed Node runtime whatever runtime
    the props declare, retries zero times, and its environment has the
    three bookkeeping variables: [super] receives them with the source
    path, the handler and the local id of the function, and they are
    still there when the constructor returns, with these values unless a
    bound construct writes the same key; with the debug-timeout flag of
    the app the timeout is 900 seconds, the maximum of the platform. *)
Theorem construct_liveDev (app : App) (defaults : list FunctionProps)
    (scope : path) (id : string) (props : FunctionProps) (t t' : Tree)
    (fn : FunctionConstruct) :
  let merged := applyDefaults defaults props in
  let srcPath_ := normalizeSrcPath (stringOr (read (srcPath merged)) ".") in
  liveDevEnabled merged = true →
  mode app = "start" →
  construct app defaults scope id props t = Ok (fn, t') →
  lp_runtime (base fn) = NODEJS_16_X
  ∧ lp_retryAttempts (base fn) = Some 0%Z
  ∧ (∃ env,
       lp_environment (base fn) = Some env
       ∧ env !! "SST_DEBUG_SRC_PATH" = Some srcPath_
       ∧ env !! "SST_DEBUG_SRC_HANDLER" = read (handler merged)
       ∧ env !! "SST_FUNCTION_ID" = Some (localIdOf scope id)
       ∧ (∀ key, key ∈ debugKeys →
                 is_Some (fn_environment fn !! key)
                 ∧ (unbound key (boundConstructs merged) →
                    fn_environment fn !! key = env !! key)))
  ∧ (debugIncreaseTimeout app = true →
     lp_timeout (base fn) = DurationSeconds 900).
Proof.
  cbv zeta. intros Hl Hm E.
  pose proof (selectMode_LiveDev app _ Hl Hm) as Hmode.
  destruct (liveDev_super_arguments app defaults scope id props t t' fn
              Hmode E)
    as (h & env & Hh & He & E1 & E2 & E3 & Hkeep & Hkeys & Hr & Hretry
        & Ht).
  split; [done |]. split; [done |]. split; [| done].
  exists env. rewrite Hh. repeat (split; [done |]).
  intros key Hk. split; [| by apply Hkeys].
  apply Hkeep. unfold debugKeys in Hk.
  repeat (apply elem_of_cons in Hk as [-> | Hk]; [eauto |]).
  by apply elem_of_nil in Hk.
Qed.

(** C9, as amended. A reserved key in the environment that the user
    supplies is not looked for: in a construction that returns, the value
    that the constructor injects has replaced the user's.  The constructed
    function has the name of the app under [SST_APP], its stage under
    [SST_STAGE] and a non-empty settings prefix under [SST_SSM_PREFIX] (a
    binding that writes the same key apart), and in live development
    [super] receives the source path, the handler and the local id under
    the three debug keys. *)
Theorem construct_reserved_keys (app : App) (defaults : list FunctionProps)
    (scope : path) (id : string) (props : FunctionProps) (t t' : Tree)
    (fn : FunctionConstruct) :
  let merged := applyDefaults defaults props in
  let srcPath_ := normalizeSrcPath (stringOr (read (srcPath merged)) ".") in
  let bound := default [] (read (config merged))
               ++ default [] (read (bind merged)) in
  construct app defaults scope id props t = Ok (fn, t') →
  (unbound "SST_APP" bound →
   fn_environment fn !! "SST_APP" = Some (name app))
  ∧ (unbound "SST_STAGE" bound →
     fn_environment fn !! "SST_STAGE" = Some (stage app))
  ∧ (ssmPrefix ≠ "" → unbound "SST_SSM_PREFIX" bound →
     fn_environment fn !! "SST_SSM_PREFIX" = Some ssmPrefix)
  ∧ (selectMode app (liveDevEnabled merged) = LiveDev →
     ∃ env,
       lp_environment (base fn) = Some env
       ∧ env !! "SST_DEBUG_SRC_PATH" = Some srcPath_
       ∧ env !! "SST_DEBUG_SRC_HANDLER" = read (handler merged)
       ∧ env !! "SST_FUNCTION_ID" = Some (localIdOf scope id)).
Proof.
  cbv zeta. intros E.
  assert (∃ r fn0, fn = afterSuper app r (applyDefaults defaults props)
                          fn0) as (r0 & fn0 & Efn).
  { pose proof E as E'. construct_checks E'.
    match type of E' with
    | (?super ≫= _) = _ => destruct super as [[fn0 t0]|]; [| done]
    end.
    exists r, fn0.
    exact (f_equal (λ x, match x with
                         | Ok (a, _) => a
                         | Err _ => fn
                         end) (eq_sym E')). }
  destruct (afterSuper_reserved app r0 (applyDefaults defaults props) fn0)
    as (Ha & Hs & Hp).
  rewrite Efn. split; [done |]. split; [done |]. split; [done |].
  intros Hmode. rewrite <- Efn.
  destruct (liveDev_super_arguments app defaults scope id props t t' _
              Hmode E)
    as (h & env & Hh & He & E1 & E2 & E3 & _).
  exists env. by rewrite Hh.
Qed.

End Modes.

(** Two constructions that return, for the statements at the examples. *)
Lemma exampleLive_constructed :
  ∃ fn t',
    construct exampleStartApp [] ["Api"; "StackB"] "Fn" exampleLive
              exampleTree
    = Ok (fn, t').
Proof.
  apply (proj1 (construct_succeeds exampleStartApp [] ["Api"; "StackB"]
                  ["StackB"] "Fn" exampleLive exampleTree None
                  (DurationSeconds 10) "python3.9" "src/api.handler"
                  1024%Z (SizeMebibytes 512) _
                  ltac:(by vm_compute) eq_refl eq_refl eq_refl eq_refl
                  eq_refl eq_refl eq_refl ltac:(done) (λ _, eq_refl)));
    [reflexivity | by vm_compute].
Qed.

Lemma exampleReserved_constructed :
  ∃ fn t',
    construct exampleApp [] ["Api"; "StackB"] "Fn" exampleReserved
              exampleTree
    = Ok (fn, t').
Proof.
  apply (proj2 (construct_succeeds exampleApp [] ["Api"; "StackB"]
                  ["StackB"] "Fn" exampleReserved exampleTree None
                  (DurationSeconds 10) "nodejs14.x" "src/api.handler"
                  1024%Z (SizeMebibytes 512) _
                  ltac:(by vm_compute) eq_refl eq_refl eq_refl eq_refl
                  eq_refl eq_refl eq_refl ltac:(done) (λ _, eq_refl))
           ltac:(done) [] exampleTree);
    [reflexivity | by vm_compute].
Qed.

Lemma construct_liveDev_witness :
  ∃ fn t',
    construct exampleStartApp [] ["Api"; "StackB"] "Fn" exampleLive
              exampleTree
    = Ok (fn, t')
    ∧ lp_runtime (base fn) = "nodejs16.x"
    ∧ lp_retryAttempts (base fn) = Some 0%Z
    ∧ is_Some (fn_environment fn !! "SST_FUNCTION_ID")
    ∧ lp_timeout (base fn) = DurationSeconds 900.
Proof.
  destruct exampleLive_constructed as (fn & t' & E).
  exists fn, t'. split; [exact E |].
  destruct (construct_liveDev exampleStartApp [] ["Api"; "StackB"] "Fn"
              exampleLive exampleTree t' fn eq_refl eq_refl E)
    as (Hr & Hretry & (env & _ & _ & _ & _ & Hk) & Ht).
  split; [exact Hr |]. split; [exact Hretry |]. split.
  - apply (Hk "SST_FUNCTION_ID"). unfold debugKeys. repeat constructor.
  - apply Ht. reflexivity.
Defined.

Lemma construct_reserved_keys_witness :
  ∃ fn t',
    construct exampleApp [] ["Api"; "StackB"] "Fn" exampleReserved
              exampleTree
    = Ok (fn, t')
    ∧ fn_environment fn !! "SST_APP" = Some "demo".
Proof.
  destruct exampleReserved_constructed as (fn & t' & E).
  exists fn, t'. split; [exact E |].
  apply (proj1 (construct_reserved_keys exampleApp [] ["Api"; "StackB"] "Fn"
                  exampleReserved exampleTree t' fn E)).
  intros c kv Hc. by apply elem_of_nil in Hc.
Defined.

(** C9 as stated fails: the user's [SST_APP] is replaced by the name of
    the app, and construction succeeds. *)
Lemma construct_overrides_user_value :
  environmentOf (Some exampleReserved) !! "SST_APP" = Some "mine"
  ∧ constructedVariable "SST_APP"
      (construct exampleApp [] ["Api"; "StackB"] "Fn" exampleReserved
                 exampleTree)
    = Ok (Some "demo").
Proof. split; vm_compute; reflexivity. Qed.

(** * Further properties *)

(** ** [mergeProps] as a monoid *)

Lemma mergeProps_merge (a b : option FunctionProps) :
  mergeProps a b = merge (orEmpty a) (orEmpty b).
Proof. reflexivity. Qed.

Lemma environmentField_empty (x : own (gmap string string)) :
  mergedField effEnv spreadMap environmentProp NoKey x = x
  ∧ mergedField effEnv spreadMap environmentProp x NoKey = x.
Proof.
  unfold mergedField, spreadMap, environmentProp, effEnv.
  destruct x as [|[m|]]; simpl;
    rewrite ?(left_id_L ∅ (∪)), ?(right_id_L ∅ (∪));
    try (by rewrite decide_True).
  destruct (decide (m = ∅)); by subst.
Qed.

Lemma listField_empty {A} (x : own (list A)) :
  mergedField effList app listProp NoKey x = x
  ∧ mergedField effList app listProp x NoKey = x.
Proof.
  unfold mergedField, effList.
  destruct x as [|[[|a l]|]]; simpl; by rewrite ?app_nil_r.
Qed.

Lemma permissionsField_empty (x : own Permissions) :
  mergedField permissionSet joinPermissionSets writePermissionSet NoKey x = x
  ∧ mergedField permissionSet joinPermissionSets writePermissionSet x NoKey
    = x.
Proof.
  unfold mergedField, permissionSet.
  destruct x as [|[[|[|a l]]|]]; simpl; by rewrite ?app_nil_r.
Qed.

Lemma merge_empty (p : FunctionProps) :
  merge emptyProps p = p ∧ merge p emptyProps = p.
Proof.
  unfold merge.
  split; apply FunctionProps_eq;
    rewrite ?mergeProps_environment, ?mergeProps_bind, ?mergeProps_config,
      ?permissions_of_mergeProps, ?mergeProps_layers, ?orEmpty_Some;
    try (intros k; rewrite mergeProps_scalar, !orEmpty_Some;
         by destruct k; simpl; try destruct (_ p));
    first [ apply environmentField_empty | apply listField_empty
          | apply permissionsField_empty ].
Qed.

(** X1. A missing argument and the empty object are units of
    [mergeProps]: merged with either, on either side, props come back as
    they are. *)
Theorem mergeProps_unit (p : FunctionProps) :
  mergeProps None (Some p) = p
  ∧ mergeProps (Some p) None = p
  ∧ mergeProps (Some emptyProps) (Some p) = p
  ∧ mergeProps (Some p) (Some emptyProps) = p.
Proof.
  rewrite !mergeProps_merge. simpl. pose proof (merge_empty p). tauto.
Qed.

(** X2. [mergeProps] is associative, missing arguments included: merging
    a base with the merge of two overrides is merging the merge of base
    and first override with the second. *)
Theorem mergeProps_associative (a b c : option FunctionProps) :
  mergeProps a (Some (mergeProps b c)) = mergeProps (Some (mergeProps a b)) c.
Proof.
  rewrite !mergeProps_merge, !orEmpty_Some. apply merge_assoc.
Qed.

Lemma environmentField_key (x y : own (gmap string string)) :
  isKey (mergedField effEnv spreadMap environmentProp x y)
  = isKey x || isKey y.
Proof.
  unfold mergedField, spreadMap, environmentProp, effEnv.
  destruct x as [|[m|]], y as [|[n|]]; simpl;
    by destruct (decide _).
Qed.

Lemma listField_key {A} (x y : own (list A)) :
  isKey (mergedField effList app listProp x y) = isKey x || isKey y.
Proof.
  unfold mergedField, effList.
  destruct x as [|[l|]], y as [|[k|]]; simpl; try done;
    by destruct (_ ++ _) || by destruct l || by destruct k.
Qed.

Lemma permissionsField_key (x y : own Permissions) :
  isKey (mergedField permissionSet joinPermissionSets writePermissionSet x y)
  = isKey x || isKey y.
Proof.
  unfold mergedField, permissionSet.
  destruct x as [|[[|l]|]], y as [|[[|k]|]]; simpl; try done;
    by destruct (_ ++ _) || by destruct l || by destruct k.
Qed.

(** X3. [mergeProps] keeps every key and invents none: the merged props
    have a key exactly when base or override has it, the five rebuilt
    fields included (an environment or list key is not added for an empty
    result, and not lost for one). *)
Theorem mergeProps_keys (f : FieldName) (a b : option FunctionProps) :
  hasKey f (mergeProps a b) = hasKey f (orEmpty a) || hasKey f (orEmpty b).
Proof.
  destruct f as [k| | | | |]; cbn [hasKey].
  - rewrite mergeProps_scalar. by destruct (scalar k (orEmpty b)),
      (scalar k (orEmpty a)).
  - rewrite mergeProps_environment. apply environmentField_key.
  - rewrite mergeProps_bind. apply listField_key.
  - rewrite mergeProps_config. apply listField_key.
  - rewrite permissions_of_mergeProps. apply permissionsField_key.
  - rewrite mergeProps_layers. apply listField_key.
Qed.

(** ** Chains of defaults *)

Lemma foldr_merge_empty (ds : list FunctionProps) (p : FunctionProps) :
  foldr merge p ds = merge (foldr merge emptyProps ds) p.
Proof.
  induction ds as [|d ds IH]; simpl.
  - symmetry. apply merge_empty.
  - by rewrite IH, merge_assoc.
Qed.

(** X4. Defaults compose: applying a chain in two parts, the inner part
    first, is applying the whole chain; and a chain can be merged once, on
    the empty props, and the result merged under any explicit props. *)
Theorem applyDefaults_compose (outer inner : list FunctionProps)
    (p : FunctionProps) :
  applyDefaults (outer ++ inner) p
  = applyDefaults outer (applyDefaults inner p)
  ∧ applyDefaults outer p
    = mergeProps (Some (applyDefaults outer emptyProps)) (Some p).
Proof.
  rewrite !applyDefaults_foldr. split.
  - by rewrite foldr_app.
  - apply foldr_merge_empty.
Qed.

(** ** More on the normalizers *)

Lemma append_cons (c : ascii) (s t : string) :
  String c s +:+ t = String c (s +:+ t).
Proof. reflexivity. Qed.

Lemma append_empty_l (t : string) : "" +:+ t = t.
Proof. reflexivity. Qed.

Lemma normalizeSrcPath_cons (c : ascii) (rest : string) :
  normalizeSrcPath (String c rest)
  = if decide (c = "/"%char ∧ normalizeSrcPath rest = "") then ""
    else String c (normalizeSrcPath rest).
Proof. reflexivity. Qed.

Lemma normalizeSrcPath_no_slash_end (s r : string) :
  normalizeSrcPath s ≠ r +:+ "/".
Proof.
  revert r. induction s as [|c rest IH]; intros r E.
  - by destruct r.
  - rewrite normalizeSrcPath_cons in E.
    destruct (decide _) as [_ | Hn]; [by destruct r |].
    destruct r as [|d r].
    + rewrite append_empty_l in E. injection E as -> E.
      apply Hn. by rewrite E.
    + rewrite append_cons in E. injection E as _ E. by apply (IH r).
Qed.

(** X5. [normalizeSrcPath] strips the slashes at the end and nothing
    else: its argument is its result followed by slashes only, its result
    never ends with a slash, and normalizing again changes nothing. *)
Theorem normalizeSrcPath_strips (srcPath : string) :
  (∃ n, srcPath = normalizeSrcPath srcPath +:+ slashes n)
  ∧ (∀ r, normalizeSrcPath srcPath ≠ r +:+ "/")
  ∧ normalizeSrcPath (normalizeSrcPath srcPath) = normalizeSrcPath srcPath.
Proof.
  split; [| split; [apply normalizeSrcPath_no_slash_end |]].
  - induction srcPath as [|c rest [n IH]]; [by exists 0%nat |].
    rewrite normalizeSrcPath_cons.
    destruct (decide _) as [[-> E] | _].
    + exists (S n). rewrite E in IH. rewrite append_empty_l in *.
      simpl. by rewrite <- IH.
    + exists n. rewrite append_cons. by rewrite <- IH.
  - induction srcPath as [|c rest IH]; [done |].
    rewrite normalizeSrcPath_cons.
    destruct (decide _) as [_ | Hn]; [done |].
    rewrite normalizeSrcPath_cons, IH. by rewrite decide_False.
Qed.

Lemma normalizeRuntime_error (runtime : option string) (e : error) :
  normalizeRuntime runtime = Err e → e = UnsupportedRuntime.
Proof. unfold normalizeRuntime. destruct (negb _); congruence. Qed.

(** X6. [normalizeRuntime] fails with [UnsupportedRuntime] only; what it
    returns is not empty, is its argument or else the default
    ["nodejs14.x"], and is returned again when it is normalized again. *)
Theorem normalizeRuntime_result (runtime : option string) :
  (∀ e, normalizeRuntime runtime = Err e → e = UnsupportedRuntime)
  ∧ (∀ r, normalizeRuntime runtime = Ok r →
          r ≠ ""
          ∧ (runtime = Some r ∨ r = "nodejs14.x")
          ∧ normalizeRuntime (Some r) = Ok r).
Proof.
  split.
  - intros e. apply normalizeRuntime_error.
  - unfold normalizeRuntime.
    intros r. destruct (negb _) eqn:E; [done |]. intros [= <-].
    assert (Hne : stringOr runtime "nodejs14.x" ≠ "").
    { intros E'. by rewrite E' in E. }
    split; [done |]. split.
    + unfold stringOr in *. destruct runtime as [s|]; [| by right].
      destruct (decide (s = "")); [by right | by left].
    + unfold stringOr at 1 3. rewrite decide_False by done. by rewrite E.
Qed.

(** ** The local id *)

Lemma occurs_replaceAll (c d : ascii) (s : string) :
  c ≠ d → occurs c (replaceAll c d s) = false.
Proof.
  intros Hne. induction s as [|x s IH]; [done |]. simpl.
  rewrite IH, orb_false_r. destruct (decide (x = c)) as [-> | Hx].
  - by rewrite bool_decide_eq_false_2.
  - by rewrite bool_decide_eq_false_2.
Qed.

Lemma occurs_replaceAll_other (c c' d : ascii) (s : string) :
  c ≠ d → occurs c s = false → occurs c (replaceAll c' d s) = false.
Proof.
  intros Hne. induction s as [|x s IH]; [done |]. simpl.
  intros [Hx Hs]%orb_false_elim. rewrite (IH Hs), orb_false_r.
  destruct (decide (x = c')); [by rewrite bool_decide_eq_false_2 | done].
Qed.

Lemma length_replaceAll (c d : ascii) (s : string) :
  String.length (replaceAll c d s) = String.length s.
Proof. induction s as [|x s IH]; simpl; [done | by rewrite IH]. Qed.

(** X7. The local id of a function has no dollar sign, no slash and no
    dot, and it is as long as the joined path it is made from. *)
Theorem localIdOf_characters `{Host} (scope : path) (id : string) :
  occurs "$" (localIdOf scope id) = false
  ∧ occurs "/" (localIdOf scope id) = false
  ∧ occurs "." (localIdOf scope id) = false
  ∧ String.length (localIdOf scope id)
    = String.length (posixJoin (nodePath scope) id).
Proof.
  unfold localIdOf. repeat split.
  - do 2 (apply occurs_replaceAll_other; [done |]).
    by apply occurs_replaceAll.
  - apply occurs_replaceAll_other; [done |]. by apply occurs_replaceAll.
  - by apply occurs_replaceAll.
  - by rewrite !length_replaceAll.
Qed.

(** ** What [bind] and [attachPermissions] do to a function *)

Lemma rewritten_rewritten (e e' : gmap string string)
    (g g' : list Permissions) (fn : FunctionConstruct) :
  rewritten e g (rewritten e' g' fn) = rewritten e g fn.
Proof. reflexivity. Qed.

Lemma rewritten_same (fn : FunctionConstruct) :
  rewritten (fn_environment fn) (fn_granted fn) fn = fn.
Proof. by destruct fn. Qed.

Lemma writeAll_app (kvs kvs' : list (string * string))
    (env : gmap string string) :
  writeAll (kvs ++ kvs') env = writeAll kvs' (writeAll kvs env).
Proof. apply foldl_app. Qed.

Section BindEffects.
Context `{Host}.

Lemma addEnvironment_fold (kvs : list (string * string))
    (fn : FunctionConstruct) :
  foldl (λ fn kv, addEnvironment kv.1 kv.2 fn) fn kvs
  = rewritten (writeAll kvs (fn_environment fn)) (fn_granted fn) fn.
Proof.
  revert fn. induction kvs as [|kv kvs IH]; intros fn.
  - symmetry. apply rewritten_same.
  - cbn [foldl]. by rewrite IH.
Qed.

Lemma attachStatement_fold (ps : list (string * list string))
    (fn : FunctionConstruct) :
  foldl (λ fn ar,
           attachPermissionsWith (λ _ fn, fn)
             (PermList [PermStatement [ar.1] ar.2]) fn) fn ps
  = rewritten (fn_environment fn)
      (fn_granted fn ++ ((λ ar, PermList [PermStatement [ar.1] ar.2]) <$> ps))
      fn.
Proof.
  revert fn. induction ps as [|ar ps IH]; intros fn.
  - simpl. rewrite app_nil_r. symmetry. apply rewritten_same.
  - cbn [foldl]. rewrite IH. simpl. by rewrite <- (assoc_L (++)).
Qed.

Lemma Function_bind_effect (cs : list SSTConstruct) (fn : FunctionConstruct) :
  Function_bind cs fn
  = rewritten (writeAll (cs ≫= bindEnvironment) (fn_environment fn))
              (fn_granted fn ++ (cs ≫= statementsOf)) fn.
Proof.
  unfold Function_bind. revert fn.
  induction cs as [|c cs IH]; intros fn.
  - simpl. rewrite app_nil_r. symmetry. apply rewritten_same.
  - cbn [foldl]. rewrite IH, attachStatement_fold, addEnvironment_fold.
    simpl. rewrite writeAll_app, <- (assoc_L (++)). reflexivity.
Qed.

Lemma attachPermissions_effect (p : Permissions) (fn : FunctionConstruct) :
  attachPermissions p fn
  = rewritten (writeAll (jobsOf p ≫= bindEnvironment) (fn_environment fn))
              (fn_granted fn ++ p :: (jobsOf p ≫= statementsOf)) fn.
Proof.
  unfold attachPermissions, attachPermissionsWith.
  destruct p as [|l]; [reflexivity |].
  change (foldl (λ fn job, Function_bind [job] fn) (grant (PermList l) fn)
                (omap asJob l))
    with (Function_bind (omap asJob l) (grant (PermList l) fn)).
  rewrite Function_bind_effect. simpl.
  by rewrite <- (assoc_L (++)).
Qed.

(** X8. [bind] writes the variables of its constructs, in order, and
    attaches one policy statement per permission entry of each; it
    changes nothing else.  [attachPermissions] attaches its argument and
    then binds the jobs among the permissions in the same way; for the
    wildcard it attaches the wildcard and does nothing else. *)
Theorem bind_attachPermissions_effect (cs : list SSTConstruct)
    (p : Permissions) (fn : FunctionConstruct) :
  Function_bind cs fn
  = rewritten (writeAll (cs ≫= bindEnvironment) (fn_environment fn))
              (fn_granted fn ++ (cs ≫= statementsOf)) fn
  ∧ attachPermissions p fn
    = rewritten (writeAll (jobsOf p ≫= bindEnvironment) (fn_environment fn))
                (fn_granted fn ++ p :: (jobsOf p ≫= statementsOf)) fn
  ∧ attachPermissions PermAll fn = grant PermAll fn.
Proof.
  split; [apply Function_bind_effect |].
  split; [apply attachPermissions_effect | reflexivity].
Qed.

End BindEffects.

(** ** What the constructor does after [super] *)

Section AfterSuper.
Context `{Host}.

Lemma createUrl_keeps (fn : FunctionConstruct) :
  base (createUrl fn) = base fn
  ∧ fn_environment (createUrl fn) = fn_environment fn
  ∧ fn_granted (createUrl fn) = fn_granted fn
  ∧ fn_id (createUrl fn) = fn_id fn
  ∧ fn_props (createUrl fn) = fn_props fn
  ∧ _isLiveDevEnabled (createUrl fn) = _isLiveDevEnabled fn
  ∧ localId (createUrl fn) = localId fn
  ∧ deferredBuild (createUrl fn) = deferredBuild fn.
Proof.
  unfold createUrl. by destruct (read (url (fn_props fn))) as [[[]|]|].
Qed.

Lemma afterSuper_rewritten (app : App) (runtime : string)
    (props : FunctionProps) (fn : FunctionConstruct) :
  afterSuper app runtime props fn
  = createUrl
      (rewritten
         (writeAll (constructorWrites app runtime props) (fn_environment fn))
         (fn_granted fn ++ constructorGrants props) fn).
Proof.
  unfold afterSuper, addConfig, constructorWrites, constructorGrants.
  f_equal. rewrite !Function_bind_effect.
  assert (Hssm : ∀ fn',
    (if decide (ssmPrefix = "") then fn'
     else addEnvironment "SST_SSM_PREFIX" ssmPrefix fn')
    = rewritten
        (writeAll (if decide (ssmPrefix = "") then []
                   else [("SST_SSM_PREFIX", ssmPrefix)])
                  (fn_environment fn'))
        (fn_granted fn') fn').
  { intros fn'. destruct (decide _); [| done].
    symmetry. apply rewritten_same. }
  assert (Hnode :
    (if startsWith runtime "nodejs"
     then addEnvironment "AWS_NODEJS_CONNECTION_REUSE_ENABLED" "1" fn
     else fn)
    = rewritten
        (writeAll (if startsWith runtime "nodejs"
                   then [("AWS_NODEJS_CONNECTION_REUSE_ENABLED", "1")]
                   else [])
                  (fn_environment fn))
        (fn_granted fn) fn).
  { destruct (startsWith _ _); [done |]. symmetry. apply rewritten_same. }
  rewrite Hssm, Hnode, attachPermissions_effect.
  unfold rewritten. simpl. f_equal.
  - rewrite !writeAll_app. unfold writeAll. cbn [foldl].
    by rewrite !foldl_app.
  - by rewrite <- !(assoc_L (++)).
Qed.

Lemma afterSuper_effect (app : App) (runtime : string)
    (props : FunctionProps) (fn : FunctionConstruct) :
  let fn' := afterSuper app runtime props fn in
  base fn' = base fn
  ∧ fn_environment fn'
    = writeAll (constructorWrites app runtime props) (fn_environment fn)
  ∧ fn_granted fn' = fn_granted fn ++ constructorGrants props
  ∧ fn_id fn' = fn_id fn
  ∧ fn_props fn' = fn_props fn
  ∧ _isLiveDevEnabled fn' = _isLiveDevEnabled fn
  ∧ localId fn' = localId fn
  ∧ deferredBuild fn' = deferredBuild fn.
Proof.
  cbv zeta. rewrite afterSuper_rewritten.
  destruct (createUrl_keeps
              (rewritten
                 (writeAll (constructorWrites app runtime props)
                           (fn_environment fn))
                 (fn_granted fn ++ constructorGrants props) fn))
    as (-> & -> & -> & -> & -> & -> & -> & ->).
  done.
Qed.

End AfterSuper.

(** ** The function that the constructor returns *)

Section Constructed.
Context `{Host}.

(** A successful construction, taken apart: the checks that passed, the
    function that [super] made and what the mode made of it. *)
Lemma construct_inv (app : App) (defaults : list FunctionProps)
    (scope : path) (id : string) (props : FunctionProps) (t t' : Tree)
    (fn : FunctionConstruct) :
  let merged := applyDefaults defaults props in
  let srcPath_ := normalizeSrcPath (stringOr (read (srcPath merged)) ".") in
  let m := selectMode app (liveDevEnabled merged) in
  construct app defaults scope id props t = Ok (fn, t') →
  ∃ r h b fn0,
    normalizeRuntime (read (runtime merged)) = Ok r
    ∧ validateHandler (read (handler merged)) = Ok h
    ∧ validateBundle r srcPath_ (read (bundle merged)) = Ok b
    ∧ fn = afterSuper app r merged fn0
    ∧ (fn_id fn0 = id ∧ fn_props fn0 = merged
       ∧ localId fn0 = localIdOf scope id
       ∧ _isLiveDevEnabled fn0 = liveDevEnabled merged)
    ∧ fn_environment fn0
      = writeAll (superWrites m srcPath_ h (localIdOf scope id))
                 (environmentOf (Some merged))
    ∧ fn_granted fn0
      = match m with LiveDev => [PermList [iotStatement]] | _ => [] end
    ∧ deferredBuild fn0
      = match m with
        | Build => Some {| build_id := localIdOf scope id;
                           build_root := appPath app;
                           build_handler := h;
                           build_runtime := r;
                           build_srcPath := srcPath_;
                           build_bundle := read (bundle merged);
                           build_copyBundle := b |}
        | _ => None
        end
    ∧ lp_runtime (base fn0) = NODEJS_16_X
    ∧ functionUrl fn0 = None
    ∧ match m with
      | LiveDev =>
          super scope id (base fn0) t = Ok t'
          ∧ lp_code (base fn0) = BridgeAsset
          ∧ lp_handler (base fn0) = "bridge.handler"
          ∧ lp_layers (base fn0) = []
      | _ =>
          (∃ t1,
             buildLayers scope id merged t = Ok (lp_layers (base fn0), t1)
             ∧ super scope id (base fn0) t1 = Ok t')
          ∧ lp_code (base fn0) = InlinePlaceholder
          ∧ lp_handler (base fn0) = "index.placeholder"
          ∧ lp_environment (base fn0) = read (environment merged)
          ∧ lp_retryAttempts (base fn0) = read (retryAttempts merged)
          ∧ normalizeTimeout (read (timeout merged))
            = Ok (lp_timeout (base fn0))
      end.
Proof.
  cbv zeta. intros E. construct_checks E.
  exists r, h, b.
  destruct (selectMode app _) eqn:Hmode.
  - destruct (super _ _ _ _) as [t1|] eqn:Hsuper; [| done].
    rewrite !bind_Ok in E.
    eexists. split; [done |]. split; [done |]. split; [done |].
    split; [exact (f_equal (λ x, match x with
                                 | Ok (a, _) => a
                                 | Err _ => fn
                                 end) (eq_sym E)) |].
    assert (t' = t1) as ->
      by exact (f_equal (λ x, match x with
                              | Ok (_, a) => a
                              | Err _ => t
                              end) (eq_sym E)).
    repeat split; done.
  - destruct (buildLayers _ _ _ _) as [[ls t1]|] eqn:Hl; [| done].
    rewrite bind_Ok in E.
    destruct (super _ _ _ _) as [t2|] eqn:Hsuper; [| done].
    rewrite !bind_Ok in E.
    eexists. split; [done |]. split; [done |]. split; [done |].
    split; [exact (f_equal (λ x, match x with
                                 | Ok (a, _) => a
                                 | Err _ => fn
                                 end) (eq_sym E)) |].
    assert (t' = t2) as ->
      by exact (f_equal (λ x, match x with
                              | Ok (_, a) => a
                              | Err _ => t
                              end) (eq_sym E)).
    repeat (split; [by repeat split |]).
    split; [by exists t1 | by repeat split].
  - destruct (buildLayers _ _ _ _) as [[ls t1]|] eqn:Hl; [| done].
    rewrite bind_Ok in E.
    destruct (super _ _ _ _) as [t2|] eqn:Hsuper; [| done].
    rewrite !bind_Ok in E.
    eexists. split; [done |]. split; [done |]. split; [done |].
    split; [exact (f_equal (λ x, match x with
                                 | Ok (a, _) => a
                                 | Err _ => fn
                                 end) (eq_sym E)) |].
    assert (t' = t2) as ->
      by exact (f_equal (λ x, match x with
                              | Ok (_, a) => a
                              | Err _ => t
                              end) (eq_sym E)).
    repeat (split; [by repeat split |]).
    split; [by exists t1 | by repeat split].
Qed.

End Constructed.

Lemma writeAll_dom (kvs : list (string * string)) (env : gmap string string) :
  dom env ⊆ dom (writeAll kvs env).
Proof.
  revert env. induction kvs as [|kv kvs IH]; intros env; [done |].
  unfold writeAll. cbn [foldl]. etrans; [| apply IH].
  rewrite dom_insert. set_solver.
Qed.

Section ConstructedProperties.
Context `{Host}.

(** X9. The environment of a constructed function is the environment of
    the merged props with, written over it in this order, the three
    variables of live development (in that mode only) and the variables
    that the constructor sets after [super]: the keep-alive switch of a
    Node runtime, the variables of the jobs among the permissions,
    [SST_APP], [SST_STAGE], a non-empty [SST_SSM_PREFIX], the variables of
    the config and of the bind list.  No variable of the props is
    removed. *)
Theorem construct_environment (app : App) (defaults : list FunctionProps)
    (scope : path) (id : string) (props : FunctionProps) (t t' : Tree)
    (fn : FunctionConstruct) :
  let merged := applyDefaults defaults props in
  let srcPath_ := normalizeSrcPath (stringOr (read (srcPath merged)) ".") in
  let m := selectMode app (liveDevEnabled merged) in
  construct app defaults scope id props t = Ok (fn, t') →
  ∃ r h,
    normalizeRuntime (read (runtime merged)) = Ok r
    ∧ read (handler merged) = Some h
    ∧ fn_environment fn
      = writeAll (superWrites m srcPath_ h (localIdOf scope id)
                  ++ constructorWrites app r merged)
                 (environmentOf (Some merged))
    ∧ dom (environmentOf (Some merged)) ⊆ dom (fn_environment fn).
Proof.
  cbv zeta. intros E.
  destruct (construct_inv _ _ _ _ _ _ _ _ E)
    as (r & h & b & fn0 & Hr & Hh & _ & -> & _ & He & _).
  apply validateHandler_Ok in Hh as [Hh _].
  destruct (afterSuper_effect app r (applyDefaults defaults props) fn0)
    as (_ & Henv & _).
  exists r, h. split; [done |]. split; [done |].
  assert (Heq : fn_environment
                  (afterSuper app r (applyDefaults defaults props) fn0)
                = writeAll
                    (superWrites
                       (selectMode app
                          (liveDevEnabled (applyDefaults defaults props)))
                       (normalizeSrcPath
                          (stringOr
                             (read (srcPath (applyDefaults defaults props)))
                             "."))
                       h (localIdOf scope id)
                     ++ constructorWrites app r
                          (applyDefaults defaults props))
                    (environmentOf (Some (applyDefaults defaults props)))).
  { by rewrite Henv, He, writeAll_app. }
  split; [exact Heq |]. rewrite Heq. apply writeAll_dom.
Qed.

(** X10. The permissions attached to a constructed function are, in
    this order: in live development the statement for all of [iot] on
    every resource; the permissions of the merged props, or the empty
    list when there are none; one statement per permission entry of each
    job among them; then those of the config and of the bind list. *)
Theorem construct_grants (app : App) (defaults : list FunctionProps)
    (scope : path) (id : string) (props : FunctionProps) (t t' : Tree)
    (fn : FunctionConstruct) :
  let merged := applyDefaults defaults props in
  construct app defaults scope id props t = Ok (fn, t') →
  fn_granted fn
  = match selectMode app (liveDevEnabled merged) with
    | LiveDev => [PermList [PermStatement ["iot:*"] ["*"]]]
    | _ => []
    end ++ constructorGrants merged.
Proof.
  cbv zeta. intros E.
  destruct (construct_inv _ _ _ _ _ _ _ _ E)
    as (r & h & b & fn0 & _ & _ & _ & -> & _ & _ & Hg & _).
  destruct (afterSuper_effect app r (applyDefaults defaults props) fn0)
    as (_ & _ & -> & _).
  by rewrite Hg.
Qed.

(** X11. A deferred build is kept for a constructed function in build
    mode and in no other: it holds the local id, the path of the app, the
    handler, runtime and source path that passed the checks, the bundle
    of the props for the bundler and the bundle after its defaults for
    [copyFiles].  The function keeps its id, the merged props, its local
    id and whether live development is enabled for it. *)
Theorem construct_deferredBuild (app : App) (defaults : list FunctionProps)
    (scope : path) (id : string) (props : FunctionProps) (t t' : Tree)
    (fn : FunctionConstruct) :
  let merged := applyDefaults defaults props in
  let srcPath_ := normalizeSrcPath (stringOr (read (srcPath merged)) ".") in
  construct app defaults scope id props t = Ok (fn, t') →
  ∃ r h b,
    normalizeRuntime (read (runtime merged)) = Ok r
    ∧ validateHandler (read (handler merged)) = Ok h
    ∧ validateBundle r srcPath_ (read (bundle merged)) = Ok b
    ∧ deferredBuild fn
      = match selectMode app (liveDevEnabled merged) with
        | Build => Some {| build_id := localIdOf scope id;
                           build_root := appPath app;
                           build_handler := h;
                           build_runtime := r;
                           build_srcPath := srcPath_;
                           build_bundle := read (bundle merged);
                           build_copyBundle := b |}
        | _ => None
        end
    ∧ fn_id fn = id
    ∧ fn_props fn = merged
    ∧ localId fn = localIdOf scope id
    ∧ _isLiveDevEnabled fn = liveDevEnabled merged.
Proof.
  cbv zeta. intros E.
  destruct (construct_inv _ _ _ _ _ _ _ _ E)
    as (r & h & b & fn0 & Hr & Hh & Hb & -> & (Hi & Hp & Hl & Hv) & _ & _
        & Hd & _).
  destruct (afterSuper_effect app r (applyDefaults defaults props) fn0)
    as (_ & _ & _ & -> & -> & -> & -> & ->).
  exists r, h, b. by rewrite Hd.
Qed.

(** X12. Outside live development the function is made with a
    placeholder: inline code, the handler ["index.placeholder"] and the
    fixed Node runtime, whatever handler and runtime the props declare;
    its layers are those that [buildLayers] resolves, which it does
    before [super] makes the function a child of the scope; and the
    environment, the retry attempts and the normalized timeout of the
    merged props are passed on. *)
Theorem construct_placeholder (app : App) (defaults : list FunctionProps)
    (scope : path) (id : string) (props : FunctionProps) (t t' : Tree)
    (fn : FunctionConstruct) :
  let merged := applyDefaults defaults props in
  selectMode app (liveDevEnabled merged) ≠ LiveDev →
  construct app defaults scope id props t = Ok (fn, t') →
  lp_code (base fn) = InlinePlaceholder
  ∧ lp_handler (base fn) = "index.placeholder"
  ∧ lp_runtime (base fn) = NODEJS_16_X
  ∧ (∃ t1,
       buildLayers scope id merged t = Ok (lp_layers (base fn), t1)
       ∧ super scope id (base fn) t1 = Ok t')
  ∧ lp_environment (base fn) = read (environment merged)
  ∧ lp_retryAttempts (base fn) = read (retryAttempts merged)
  ∧ normalizeTimeout (read (timeout merged)) = Ok (lp_timeout (base fn)).
Proof.
  cbv zeta. intros Hm E.
  destruct (construct_inv _ _ _ _ _ _ _ _ E)
    as (r & h & b & fn0 & _ & _ & _ & -> & _ & _ & _ & _ & Hr & _ & Hmode).
  destruct (afterSuper_effect app r (applyDefaults defaults props) fn0)
    as (-> & _).
  destruct (selectMode app _); [done | |];
    destruct Hmode as (? & ? & ? & ? & ? & ?); by repeat split.
Qed.

End ConstructedProperties.

(** ** More on the layers *)


Section LayerResults.
Context `{Host}.

Lemma handleImportedLayer_grows (scope : path) (layer r : Construct)
    (t t' : Tree) :
  handleImportedLayer scope layer t = Ok (r, t') → grows t t'.
Proof.
  intros E.
  destruct (stackOf t (node_path layer)) as [ls|] eqn:Hl;
    [| by unfold handleImportedLayer in E; rewrite Hl in E].
  destruct (stackOf t scope) as [cs|] eqn:Hc;
    [| by unfold handleImportedLayer in E; rewrite Hl, Hc in E].
  destruct (decide (ls = cs)) as [Heq | Hne].
  { rewrite (handleImportedLayer_direct scope layer t ls cs) in E by auto.
    injection E as _ <-. apply grows_refl. }
  destruct (isUnresolved (layerVersionArn layer)) eqn:Hu.
  - by apply (handleImportedLayer_foreign scope layer r t t' ls cs).
  - rewrite (handleImportedLayer_direct scope layer t ls cs) in E by auto.
    injection E as _ <-. apply grows_refl.
Qed.

Lemma mapLayers_inv (scope : path) (id : string) (ls : list LayerProp)
    (t t' : Tree) (cs : list Construct) :
  mapLayers scope id ls t = Ok (cs, t') →
  grows t t'
  ∧ length cs = length ls
  ∧ (∀ i arn, ls !! i = Some (LayerArn arn) →
              cs !! i = Some {| node_path := sanitizeId (id +:+ arn) :: scope;
                                payload := IsLayer (ArnLiteral arn) |})
  ∧ (∀ arn, arn ∈ arnsOf ls → tryFindChild scope (id +:+ arn) t = None)
  ∧ NoDup ((λ arn, sanitizeId (id +:+ arn)) <$> arnsOf ls).
Proof.
  revert t cs. induction ls as [|l ls IH]; intros t cs.
  - intros [= <- <-]. split; [apply grows_refl |]. split; [done |].
    split; [done |]. split; [by intros arn Ha%elem_of_nil | constructor].
  - cbn [mapLayers]. destruct l as [a | layer].
    + destruct (newConstruct _ _ _ _) as [[c t1]|] eqn:Hn; [| done].
      rewrite bind_Ok.
      destruct (mapLayers scope id ls t1) as [[cs' t2]|] eqn:Hm; [| done].
      rewrite bind_Ok. intros [= <- <-].
      apply grows_newConstruct in Hn as (G1 & -> & Hfree & Hc & _); [| done].
      destruct (IH _ _ Hm) as (G2 & Hlen & Hidx & Hfresh & Hnd).
      split; [by eapply grows_trans |]. split; [simpl; by rewrite Hlen |].
      split; [| split].
      * intros [|i] arn; simpl; [by intros [= ->] | apply Hidx].
      * simpl. intros arn [-> | Ha]%elem_of_cons; [done |].
        by apply (grows_absent t t1), Hfresh.
      * simpl. constructor; [| done].
        intros (arn & Earn & Ha)%list_elem_of_fmap.
        apply Hfresh in Ha. unfold tryFindChild in Ha, Hc.
        rewrite <- Earn in Ha. discriminate (eq_trans (eq_sym Hc) Ha).
    + destruct (handleImportedLayer _ _ _) as [[c t1]|] eqn:Hn; [| done].
      rewrite bind_Ok.
      destruct (mapLayers scope id ls t1) as [[cs' t2]|] eqn:Hm; [| done].
      rewrite bind_Ok. intros [= <- <-].
      apply handleImportedLayer_grows in Hn.
      destruct (IH _ _ Hm) as (G2 & Hlen & Hidx & Hfresh & Hnd).
      split; [by eapply grows_trans |]. split; [simpl; by rewrite Hlen |].
      split; [| split].
      * intros [|i] arn; simpl; [done | apply Hidx].
      * simpl. intros arn Ha. by apply (grows_absent t t1), Hfresh.
      * done.
Qed.

(** X14. Resolving a foreign layer publishes and imports it: the
    consuming stack depends on the stack of the layer; that stack has the
    parameter, which, made in this call, has the parameter name and the
    ARN of the layer as its value; and the scope has the import that is
    returned, which, made in this call, is a layer whose ARN is read from
    the parameter of that name.  Both are kept under their ids as cdk
    writes them. *)
Theorem handleImportedLayer_publishes (scope : path) (layer r : Construct)
    (t t' : Tree) (layerStack currentStack : path) :
  stackOf t (node_path layer) = Ok layerStack →
  stackOf t scope = Ok currentStack →
  layerStack ≠ currentStack →
  isUnresolved (layerVersionArn layer) = true →
  handleImportedLayer scope layer t = Ok (r, t') →
  (currentStack, layerStack) ∈ dependencies t'
  ∧ (∃ param,
       tryFindChild layerStack (parameterId layer) t' = Some param
       ∧ (tryFindChild layerStack (parameterId layer) t = None →
          param = {| node_path := sanitizeId (parameterId layer) :: layerStack;
                     payload :=
                       IsStringParameter (parameterName layerStack layer)
                                         (layerVersionArn layer) |}))
  ∧ tryFindChild scope (layerId layer) t' = Some r
  ∧ (tryFindChild scope (layerId layer) t = None →
     r = {| node_path := sanitizeId (layerId layer) :: scope;
            payload :=
              IsLayer (ArnSsmValue (parameterName layerStack layer)) |}).
Proof.
  intros Hl Hc Hne Hu E.
  destruct (handleImportedLayer_foreign scope layer r t t' layerStack
              currentStack Hl Hc Hne Hu E) as (_ & (_ & D) & Hrest).
  split; [| done]. rewrite D. apply elem_of_union_l.
  by apply elem_of_singleton.
Qed.

(** X15. Resolving layers only adds to the tree: after
    [handleImportedLayer], and after [buildLayers], every construct is
    where it was, every dependency is kept, and every construct has the
    stack it had. *)
Theorem layers_grow (scope : path) (id : string) (layer r : Construct)
    (props : FunctionProps) (cs : list Construct) (t t' : Tree) :
  (handleImportedLayer scope layer t = Ok (r, t') → grows t t')
  ∧ (buildLayers scope id props t = Ok (cs, t') → grows t t').
Proof.
  split; [apply handleImportedLayer_grows |].
  unfold buildLayers. intros E. by apply mapLayers_inv in E as (? & _).
Qed.

(** X16. [buildLayers] answers with one construct per layer of the
    props, in their order; a layer given by its ARN becomes a child of the
    scope whose id is the id of the function followed by the ARN, with
    every ["/"] written ["--"] as cdk keeps ids.  It succeeds only if no
    two of the ARNs give one such id, so that none is listed twice, and
    the scope has no child of such an id yet: cdk refuses the second
    construct of one id. *)
Theorem buildLayers_entries (scope : path) (id : string)
    (props : FunctionProps) (cs : list Construct) (t t' : Tree) :
  let ls := default [] (read (layers props)) in
  buildLayers scope id props t = Ok (cs, t') →
  length cs = length ls
  ∧ (∀ i arn, ls !! i = Some (LayerArn arn) →
              cs !! i = Some {| node_path := sanitizeId (id +:+ arn) :: scope;
                                payload := IsLayer (ArnLiteral arn) |})
  ∧ NoDup ((λ arn, sanitizeId (id +:+ arn)) <$> arnsOf ls)
  ∧ NoDup (arnsOf ls)
  ∧ (∀ arn, arn ∈ arnsOf ls → tryFindChild scope (id +:+ arn) t = None).
Proof.
  cbv zeta. unfold buildLayers. intros E.
  apply mapLayers_inv in E as (_ & ? & ? & ? & Hnd).
  repeat split; try done. by apply NoDup_fmap_1 in Hnd.
Qed.

End LayerResults.

(** ** More on [copyFiles] *)

Section CopyOutcome.
Context `{FileSystemOps FileSystem}.

Lemma copyEntries_Ok (srcPath buildPath : string)
    (entries : list FunctionBundleCopyFilesProps) (fs fs' : FileSystem) :
  copyEntries srcPath buildPath entries fs = Ok fs' →
  allPass srcPath buildPath entries fs
  ∧ fs' = copyAll srcPath buildPath entries fs.
Proof.
  revert fs. induction entries as [|e es IH]; intros fs; simpl.
  - by intros [= <-].
  - unfold copyEntry. fold (destination e).
    destruct (existsSync fs _) eqn:He; [| done].
    destruct (isAbsolute (destination e)) eqn:Ha; [done |]. simpl.
    intros [Hes ->]%IH. done.
Qed.

Lemma copyFiles_entriesOf (bundle : option FunctionBundleProp)
    (srcPath buildPath : string) (fs : FileSystem) :
  copyFiles bundle srcPath buildPath fs
  = copyEntries srcPath buildPath (entriesOf bundle) fs.
Proof.
  destruct bundle as [[b|o]|]; try done. simpl.
  by destruct (bundle_copyFiles o).
Qed.

(** X17. When [copyFiles] returns, every entry of the bundle has passed
    both checks at its turn, and the file system is the one with all of
    them copied, in their order.  For a bundle without entries (none, a
    boolean, an object without [copyFiles] or with an empty list) it
    returns and leaves the file system as it is. *)
Theorem copyFiles_returned (bundle : option FunctionBundleProp)
    (srcPath buildPath : string) (fs : FileSystem) :
  (∀ fs', copyFiles bundle srcPath buildPath fs = Ok fs' →
          allPass srcPath buildPath (entriesOf bundle) fs
          ∧ fs' = copyAll srcPath buildPath (entriesOf bundle) fs)
  ∧ (entriesOf bundle = [] → copyFiles bundle srcPath buildPath fs = Ok fs).
Proof.
  rewrite copyFiles_entriesOf. split.
  - intros fs'. apply copyEntries_Ok.
  - by intros ->.
Qed.

End CopyOutcome.

(** ** [fromDefinition] *)

Lemma merge_handler (b : FunctionProps) (h : string) :
  merge b (withHandler h emptyProps) = withHandler h b.
Proof.
  unfold merge. apply FunctionProps_eq;
    rewrite ?mergeProps_environment, ?mergeProps_bind, ?mergeProps_config,
      ?permissions_of_mergeProps, ?mergeProps_layers, ?orEmpty_Some;
    try (intros k; rewrite mergeProps_scalar, !orEmpty_Some;
         by destruct k; simpl; try destruct (_ b));
    first [ apply environmentField_empty | apply listField_empty
          | apply permissionsField_empty ].
Qed.

Section Defined.
Context `{Host}.

Lemma construct_applyDefaults (app : App) (outer inner : list FunctionProps)
    (scope : path) (id : string) (props : FunctionProps) (t : Tree) :
  construct app (outer ++ inner) scope id props t
  = construct app outer scope id (applyDefaults inner props) t.
Proof.
  unfold construct.
  replace (applyDefaults (outer ++ inner) props)
    with (applyDefaults outer (applyDefaults inner props)); [done |].
  by rewrite !applyDefaults_foldr, foldr_app.
Qed.

(** X19. The shapes of a definition agree.  A handler string stands for
    the props with that handler and nothing else; and inherited props
    under a props definition act as one more level of default props, the
    innermost one. *)
Theorem fromDefinition_inherits (app : App)
    (defaultFunctionProps : list FunctionProps) (scope : path) (id : string)
    (inheritedProps : option FunctionProps) (t : Tree) :
  (∀ handler_,
     fromDefinition app defaultFunctionProps scope id
       (DefinitionString handler_) inheritedProps t
     = fromDefinition app defaultFunctionProps scope id
         (DefinitionProps (withHandler handler_ emptyProps)) inheritedProps t)
  ∧ (∀ props,
       fromDefinition app defaultFunctionProps scope id
         (DefinitionProps props) inheritedProps t
       = fromDefinition app
           (defaultFunctionProps ++ [orEmpty inheritedProps]) scope id
           (DefinitionProps props) None t).
Proof.
  split.
  - intros h. unfold fromDefinition. simpl.
    by rewrite mergeProps_merge, orEmpty_Some, merge_handler.
  - intros props. unfold fromDefinition, constructDefined.
    destruct (read (handler props)); [| done].
    rewrite construct_applyDefaults.
    replace (applyDefaults [orEmpty inheritedProps] props)
      with (mergeProps inheritedProps (Some props)) by done.
    replace (mergeProps None (Some props)) with props; [done |].
    rewrite mergeProps_merge. symmetry. apply merge_empty.
Qed.

(** X20. What [fromDefinition] refuses and what it hands back.  A
    function is handed back as it is, with the tree as it is, unless there
    are inherited props with a key, which is an error.  A lambda function
    is refused.  Props whose own [handler] is missing or undefined are
    refused, whatever the inherited props hold.  A function that this
    call constructs has its binding disabled; one handed back has not. *)
Theorem fromDefinition_outcome (app : App)
    (defaultFunctionProps : list FunctionProps) (scope : path) (id : string)
    (definition : FunctionDefinition) (inheritedProps : option FunctionProps)
    (t : Tree) :
  let result_ :=
    fromDefinition app defaultFunctionProps scope id definition
      inheritedProps t in
  match definition with
  | DefinitionFunction fn =>
      if hasKeys (orEmpty inheritedProps)
      then result_ = inl ConflictingInheritedProps
      else result_ = inr ({| defined := fn; disabledBind := false |}, t)
  | DefinitionLambdaFunction => result_ = inl NotAnSstFunction
  | DefinitionProps props =>
      read (handler props) = None → result_ = inl InvalidFunctionDefinition
  | DefinitionString _ => True
  end
  ∧ (isInlineDefinition definition = true →
     result_ ≠ inl NotAnSstFunction ∧ result_ ≠ inl InvalidFunctionDefinition)
  ∧ (∀ d t', result_ = inr (d, t') →
             disabledBind d = negb (if definition is DefinitionFunction _
                                    then true else false)).
Proof.
  cbv zeta. unfold fromDefinition, constructDefined.
  split; [| split].
  - destruct definition as [h | fn | | props]; try done.
    + destruct inheritedProps as [inh|]; [| done].
      rewrite orEmpty_Some. by destruct (hasKeys inh).
    + by intros ->.
  - destruct definition as [h | fn | | props]; try done; intros _.
    + by destruct (construct _ _ _ _ _ _) as [[? ?]|].
    + destruct inheritedProps as [inh|]; [destruct (hasKeys inh) |]; done.
  - intros d t'. destruct definition as [h | fn | | props]; try done.
    + destruct (construct _ _ _ _ _ _) as [[? ?]|]; [| done].
      by intros [= <- <-].
    + destruct inheritedProps as [inh|]; [destruct (hasKeys inh) |]; try done;
        by intros [= <- <-].
    + destruct (read (handler props)); [| done].
      destruct (construct _ _ _ _ _ _) as [[? ?]|]; [| done].
      by intros [= <- <-].
Qed.

End Defined.

(** ** The function URL, and the layers that need no import *)

Section UrlAndLocalLayers.
Context `{Host}.

(** X21. A constructed function has a function URL exactly when the
    [url] of the merged props is [true] or an object.  The URL asks for
    IAM only when the authorizer is ["iam"], and for nothing otherwise;
    its cors setting is the one given, and [true] when none is. *)
Theorem construct_url (app : App) (defaults : list FunctionProps)
    (scope : path) (id : string) (props : FunctionProps) (t t' : Tree)
    (fn : FunctionConstruct) :
  let merged := applyDefaults defaults props in
  construct app defaults scope id props t = Ok (fn, t') →
  functionUrl fn
  = match read (url merged) with
    | None | Some (UrlBool false) => None
    | Some (UrlBool true) => Some {| authType := NONE; cors := CorsBool true |}
    | Some (UrlProps authorizer c) =>
        Some {| authType := if decide (authorizer = Some "iam")
                            then AWS_IAM else NONE;
                cors := default (CorsBool true) c |}
    end.
Proof.
  cbv zeta. intros E.
  destruct (construct_inv _ _ _ _ _ _ _ _ E)
    as (r & h & b & fn0 & _ & _ & _ & -> & (_ & Hp & _) & _ & _ & _ & _
        & Hu & _).
  rewrite afterSuper_rewritten. unfold createUrl. simpl. rewrite Hp.
  by destruct (read (url (applyDefaults defaults props))) as [[[]|]|].
Qed.

(** X22. A layer of the stack of the scope, and a layer whose ARN is
    resolved, is answered as it is, and the tree is left as it is: no
    dependency, no parameter and no import is made for it. *)
Theorem handleImportedLayer_local (scope : path) (layer : Construct)
    (t : Tree) (layerStack currentStack : path) :
  stackOf t (node_path layer) = Ok layerStack →
  stackOf t scope = Ok currentStack →
  layerStack = currentStack ∨ isUnresolved (layerVersionArn layer) = false →
  handleImportedLayer scope layer t = Ok (layer, t).
Proof. apply handleImportedLayer_direct. Qed.

End UrlAndLocalLayers.

(** ** The further statements at the examples *)

Lemma construct_environment_witness :
  ∃ fn t',
    construct exampleApp [] ["Api"; "StackB"] "Fn" exampleReserved
              exampleTree
    = Ok (fn, t')
    ∧ dom (environmentOf (Some (applyDefaults [] exampleReserved)))
      ⊆ dom (fn_environment fn).
Proof.
  destruct exampleReserved_constructed as (fn & t' & E).
  exists fn, t'. split; [exact E |].
  destruct (construct_environment _ _ _ _ _ _ _ _ E)
    as (r & h & _ & _ & _ & Hd).
  exact Hd.
Defined.

Lemma construct_grants_witness :
  ∃ fn t',
    construct exampleApp [] ["Api"; "StackB"] "Fn" exampleReserved
              exampleTree
    = Ok (fn, t')
    ∧ fn_granted fn = [PermList []].
Proof.
  destruct exampleReserved_constructed as (fn & t' & E).
  exists fn, t'. split; [exact E |].
  exact (construct_grants _ _ _ _ _ _ _ _ E).
Defined.

Lemma construct_deferredBuild_witness :
  ∃ fn t',
    construct exampleApp [] ["Api"; "StackB"] "Fn" exampleReserved
              exampleTree
    = Ok (fn, t')
    ∧ is_Some (deferredBuild fn)
    ∧ fn_id fn = "Fn".
Proof.
  destruct exampleReserved_constructed as (fn & t' & E).
  exists fn, t'. split; [exact E |].
  destruct (construct_deferredBuild _ _ _ _ _ _ _ _ E)
    as (r & h & b & _ & _ & _ & Hd & Hi & _).
  split; [| exact Hi]. rewrite Hd. by eexists.
Defined.

Lemma construct_placeholder_witness :
  ∃ fn t',
    construct exampleApp [] ["Api"; "StackB"] "Fn" exampleReserved
              exampleTree
    = Ok (fn, t')
    ∧ lp_handler (base fn) = "index.placeholder"
    ∧ lp_runtime (base fn) = NODEJS_16_X.
Proof.
  destruct exampleReserved_constructed as (fn & t' & E).
  exists fn, t'. split; [exact E |].
  assert (Hm : selectMode exampleApp
                 (liveDevEnabled (applyDefaults [] exampleReserved))
               ≠ LiveDev) by discriminate.
  destruct (construct_placeholder _ _ _ _ _ _ _ _ Hm E)
    as (_ & Hh & Hr & _).
  by split.
Defined.

Lemma construct_url_witness :
  ∃ fn t',
    construct exampleApp [] ["Api"; "StackB"] "Fn" exampleReserved
              exampleTree
    = Ok (fn, t')
    ∧ functionUrl fn = None.
Proof.
  destruct exampleReserved_constructed as (fn & t' & E).
  exists fn, t'. split; [exact E |].
  exact (construct_url _ _ _ _ _ _ _ _ E).
Defined.

Lemma exampleLayer_resolves :
  ∃ r t',
    handleImportedLayer ["Api"; "StackB"] exampleLayer exampleTree
    = Ok (r, t').
Proof.
  apply (handleImportedLayer_resolves ["Api"; "StackB"] exampleLayer
           exampleTree ["StackA"] ["StackB"]);
    first [by vm_compute | done].
Qed.

Lemma exampleLayered_builds :
  ∃ cs t',
    buildLayers ["Api"; "StackB"] "Fn" exampleLayered exampleTree
    = Ok (cs, t').
Proof.
  unfold buildLayers, exampleLayered.
  cbn [layers read default from_option id mapLayers].
  match goal with
  | |- context [newConstruct ?s ?i ?p ?t] =>
      destruct (newConstruct_fresh s i p t) as (c & t1 & Hn);
      [done | by vm_compute |]
  end.
  rewrite Hn, bind_Ok.
  apply grows_newConstruct in Hn as ((_ & _ & Hs) & _ & _ & _ & Hd);
    [| done].
  destruct (handleImportedLayer_resolves ["Api"; "StackB"] exampleLayer
              t1 ["StackA"] ["StackB"]) as (r & t' & ->);
    [rewrite Hs; by vm_compute | rewrite Hs; by vm_compute | done | done
    | rewrite Hd; by vm_compute |].
  rewrite bind_Ok. by eexists _, _.
Qed.

Lemma handleImportedLayer_publishes_witness :
  ∃ r t',
    handleImportedLayer ["Api"; "StackB"] exampleLayer exampleTree
    = Ok (r, t')
    ∧ (["StackB"], ["StackA"]) ∈ dependencies t'
    ∧ tryFindChild ["Api"; "StackB"] (layerId exampleLayer) t' = Some r.
Proof.
  destruct exampleLayer_resolves as (r & t' & E).
  exists r, t'. split; [exact E |].
  destruct (handleImportedLayer_publishes ["Api"; "StackB"] exampleLayer r
              exampleTree t' ["StackA"] ["StackB"])
    as (Hd & _ & Hr & _).
  - vm_compute. reflexivity.
  - vm_compute. reflexivity.
  - discriminate.
  - reflexivity.
  - exact E.
  - by split.
Defined.

Lemma layers_grow_witness :
  ∃ r t',
    handleImportedLayer ["Api"; "StackB"] exampleLayer exampleTree
    = Ok (r, t')
    ∧ grows exampleTree t'.
Proof.
  destruct exampleLayer_resolves as (r & t' & E).
  exists r, t'. split; [exact E |].
  exact (proj1 (layers_grow ["Api"; "StackB"] "Fn" exampleLayer r emptyProps
                  [] exampleTree t') E).
Defined.

Lemma buildLayers_entries_witness :
  ∃ cs t',
    buildLayers ["Api"; "StackB"] "Fn" exampleLayered exampleTree
    = Ok (cs, t')
    ∧ length cs = 2.
Proof.
  destruct exampleLayered_builds as (cs & t' & E).
  exists cs, t'. split; [exact E |].
  destruct (buildLayers_entries _ _ _ _ _ _ E) as (Hlen & _).
  exact Hlen.
Defined.

Lemma handleImportedLayer_local_witness :
  handleImportedLayer ["StackA"] exampleLayer exampleTree
  = Ok (exampleLayer, exampleTree).
Proof.
  apply (handleImportedLayer_local ["StackA"] exampleLayer exampleTree
           ["StackA"] ["StackA"]).
  - vm_compute. reflexivity.
  - vm_compute. reflexivity.
  - by left.
Defined.

Lemma copyFiles_returned_witness :
  copyFiles (Some (BundleObject (copying [entryA; entryB])))
            "src" "build" exampleFiles
  = Ok (copyAll "src" "build" [entryA; entryB] exampleFiles)
  ∧ allPass "src" "build" [entryA; entryB] exampleFiles.
Proof.
  assert (E : copyFiles (Some (BundleObject (copying [entryA; entryB])))
                        "src" "build" exampleFiles
              = Ok (copyAll "src" "build" [entryA; entryB] exampleFiles)).
  { apply (copyEntries_allPass "src" "build" [entryA; entryB]).
    simpl. repeat split; vm_compute; reflexivity. }
  split; [exact E |].
  exact (proj1 (proj1 (copyFiles_returned
                         (Some (BundleObject (copying [entryA; entryB])))
                         "src" "build" exampleFiles) _ E)).
Defined.

Lemma fromDefinition_outcome_witness :
  fromDefinition exampleApp [] ["Api"; "StackB"] "Fn"
    (DefinitionProps exampleExplicit) (Some exampleReserved) exampleTree
  = inl InvalidFunctionDefinition
  ∧ read (handler (mergeProps (Some exampleReserved) (Some exampleExplicit)))
    = Some "src/api.handler".
Proof.
  split; [| reflexivity].
  exact (proj1 (fromDefinition_outcome exampleApp [] ["Api"; "StackB"] "Fn"
                  (DefinitionProps exampleExplicit) (Some exampleReserved)
                  exampleTree) eq_refl).
Defined.
